(** * ExpandedPresets: the preset storage and import engine

    A shallow embedding of [PresetTypes.h] and [PresetManager.cpp]:
    the [|]-delimited storage format, the vanilla [presets.data] format,
    the colour token codec and the name-keyed preset collection.

    - [std::string] is a list of characters ([text]);
    - [float] is IEEE-754 binary32, through the Standard Library's
      [SpecFloat] at precision 24 and maximal exponent 128;
    - the manager, its log sink and the files it touches are one explicit
      state; a call either returns or lets a C++ exception escape, and
      in both cases the state it leaves behind is kept;
    - a file is the character sequence the streams write and read; the
      line-end translation of text-mode streams is left out
      ([TrimWhitespace] removes a carriage return at the end of a line in
      any case). *)

From Stdlib Require Import ZArith QArith Qabs Lia Lqa List Ascii String Bool.
From Stdlib Require Import Floats.SpecFloat Sorting.Sorted.
From stdpp Require Import list.
Import ListNotations.

Local Open Scope nat_scope.
Local Open Scope list_scope.

(** ** Text *)

Definition text := list ascii.

(** A string literal as a character sequence. *)
Definition str (s : string) : text := list_ascii_of_string s.
Arguments str s%_string.

Module Text.

(** [chars.find(c) != npos]: membership of a character in a set given
    as a string, as the [find_*_of] family uses it. *)
Definition mem (c : ascii) (chars : text) : bool :=
  existsb (Ascii.eqb c) chars.

(** [std::string::find_first_not_of]; [None] is [npos]. *)
Fixpoint find_first_not_of (chars s : text) : option nat :=
  match s with
  | [] => None
  | c :: s' =>
      if mem c chars
      then option_map S (find_first_not_of chars s')
      else Some 0
  end.

(** [std::string::find_last_not_of]; [None] is [npos]. *)
Fixpoint find_last_not_of (chars s : text) : option nat :=
  match s with
  | [] => None
  | c :: s' =>
      match find_last_not_of chars s' with
      | Some i => Some (S i)
      | None => if mem c chars then None else Some 0
      end
  end.

(** [std::string::find_last_of]; [None] is [npos]. *)
Fixpoint find_last_of (chars s : text) : option nat :=
  match s with
  | [] => None
  | c :: s' =>
      match find_last_of chars s' with
      | Some i => Some (S i)
      | None => if mem c chars then Some 0 else None
      end
  end.

(** [s.substr(pos, count)] for [pos <= s.size()], the only way the
    program calls it. *)
Definition substr (s : text) (pos count : nat) : text :=
  take count (drop pos s).

(** [s.substr(pos)] for [pos <= s.size()]. *)
Definition substr_from (s : text) (pos : nat) : text := drop pos s.

(** The characters [" \t\r\n"] of [TrimWhitespace]. *)
Definition whitespace : text := [" "; "009"; "013"; "010"]%char.

(** The characters ["\t "] of the vanilla format's delimiter search. *)
Definition blanks : text := ["009"; " "]%char.

(** One [std::getline(stream, token, delim)] on a stream whose unread
    characters are [s]: the token read and the characters left unread.
    The delimiter is consumed and not stored. *)
Fixpoint extract (delim : ascii) (s : text) : text * text :=
  match s with
  | [] => ([], [])
  | c :: s' =>
      if Ascii.eqb c delim then ([], s')
      else let '(token, rest) := extract delim s' in (c :: token, rest)
  end.

(** [std::getline] sets [failbit] exactly when it is called with nothing
    left to read; otherwise it yields a token, possibly empty. *)
Definition getline (delim : ascii) (s : text) : option (text * text) :=
  match s with
  | [] => None
  | _ => Some (extract delim s)
  end.

(** [while (std::getline(stream, token, delim)) tokens.push_back(token);]
    Every successful call consumes a character, so [S (length s)]
    iterations always reach the failing call. *)
Fixpoint getline_loop (fuel : nat) (delim : ascii) (s : text) : list text :=
  match fuel with
  | 0 => []
  | S fuel' =>
      match getline delim s with
      | None => []
      | Some (token, rest) => token :: getline_loop fuel' delim rest
      end
  end.

Definition getlines (delim : ascii) (s : text) : list text :=
  getline_loop (S (length s)) delim s.

(** [a == b] on [std::string]. *)
Fixpoint eqb (a b : text) : bool :=
  match a, b with
  | [], [] => true
  | c :: a', d :: b' => Ascii.eqb c d && eqb a' b'
  | _, _ => false
  end.

(** [s.empty()]. *)
Definition empty (s : text) : bool :=
  match s with [] => true | _ => false end.

(** [!s.empty() && s.front() == c]. *)
Definition front_is (c : ascii) (s : text) : bool :=
  match s with d :: _ => Ascii.eqb d c | [] => false end.

End Text.

(** [TrimWhitespace] of PresetManager.cpp. When [first] is found a last
    non-blank character exists as well; the [None] arm is the value the
    unsigned arithmetic [npos - first + 1] would give, the rest of the
    string. *)
Definition TrimWhitespace (s : text) : text :=
  match Text.find_first_not_of Text.whitespace s with
  | None => []
  | Some first =>
      match Text.find_last_not_of Text.whitespace s with
      | Some last => Text.substr s first (last - first + 1)
      | None => Text.substr_from s first
      end
  end.

(** ** binary32 *)

Module F32.

Local Open Scope Z_scope.

Definition prec : Z := 24.
Definition emax : Z := 128.

Definition float := spec_float.

(** [0.0f], [1.0f] and [255.0f]. *)
Definition zero : float := S754_zero false.
Definition one : float := S754_finite false 8388608 (-23).
Definition c255 : float := S754_finite false 16711680 (-16).

(** [a < b], [a <= b] and [a / b] on [float]. *)
Definition lt (a b : float) : bool := SFltb a b.
Definition le (a b : float) : bool := SFleb a b.
Definition div (a b : float) : float := SFdiv prec emax a b.

(** [std::max(a, b)], which is [(a < b) ? b : a]. *)
Definition max (a b : float) : float := if lt a b then b else a.

(** [a == b] on [float]. *)
Definition eqb (a b : float) : bool := SFeqb a b.

(** The binary32 value nearest to [m * 10^e10], ties to even: what a
    correctly rounded decimal literal or [strtof] yields. *)
Definition of_decimal (neg : bool) (m : Z) (e10 : Z) : float :=
  match m with
  | Zpos p =>
      if 0 <=? e10
      then binary_round prec emax neg (Z.to_pos (m * 10 ^ e10)) 0
      else SFdiv prec emax (S754_finite neg p 0)
                 (S754_finite false (Z.to_pos (10 ^ (- e10))) 0)
  | _ => S754_zero neg
  end.

(** The binary32 value nearest to [m * 2^e2] (hexadecimal literals). *)
Definition of_binary (neg : bool) (m : Z) (e2 : Z) : float :=
  match m with
  | Zpos p => binary_round prec emax neg p e2
  | _ => S754_zero neg
  end.

(** The exact value of a finite float; infinities and NaN have none. *)
Definition to_Q (x : float) : option Q :=
  match x with
  | S754_zero _ => Some 0%Q
  | S754_finite s m e =>
      let n := if s then Zneg m else Zpos m in
      Some (match e with
            | Z0 => inject_Z n
            | Zpos k => inject_Z (n * Z.pow_pos 2 k)
            | Zneg k => Qmake n (Pos.pow 2 k)
            end)
  | _ => None
  end.

(** *** [std::stof]

    The C++ runtime's conversion, modelled on its documented behaviour:
    leading [isspace] characters are skipped, then an optional sign and
    the longest prefix that is a decimal or hexadecimal floating
    literal, [inf]/[infinity] or [nan] (any case) is converted with
    correct rounding; what follows the prefix is ignored. [None] stands
    for the two exceptions: [std::invalid_argument] when no prefix
    converts, [std::out_of_range] when the magnitude overflows or a
    non-zero literal rounds to zero. *)

Definition isspace (c : ascii) : bool :=
  Text.mem c [" "; "009"; "010"; "011"; "012"; "013"]%char.

Definition digit_of (c : ascii) : option Z :=
  let n := Z.of_nat (nat_of_ascii c) in
  if (48 <=? n) && (n <=? 57) then Some (n - 48) else None.

Definition to_lower (c : ascii) : ascii :=
  let n := nat_of_ascii c in
  if ((65 <=? n) && (n <=? 90))%nat then ascii_of_nat (n + 32) else c.

Definition hexdigit_of (c : ascii) : option Z :=
  match digit_of c with
  | Some d => Some d
  | None =>
      let n := Z.of_nat (nat_of_ascii (to_lower c)) in
      if (97 <=? n) && (n <=? 102) then Some (n - 87) else None
  end.

Fixpoint skip_spaces (s : text) : text :=
  match s with
  | c :: s' => if isspace c then skip_spaces s' else s
  | [] => []
  end.

(** The digits at the head of [s], accumulated onto [acc] in base
    [base]: the new value, how many digits were read, the rest. *)
Fixpoint read_digits (dig : ascii -> option Z) (base : Z)
    (s : text) (acc : Z) (n : nat) : Z * nat * text :=
  match s with
  | c :: s' =>
      match dig c with
      | Some d => read_digits dig base s' (acc * base + d) (S n)
      | None => (acc, n, s)
      end
  | [] => (acc, n, [])
  end.

Definition read_sign (s : text) : bool * text :=
  match s with
  | "-"%char :: s' => (true, s')
  | "+"%char :: s' => (false, s')
  | _ => (false, s)
  end.

(** Digits, an optional point, digits: the digits read as one integer,
    how many there were before and after the point, and the rest. *)
Definition read_mantissa (dig : ascii -> option Z) (base : Z) (s : text)
    : Z * nat * nat * text :=
  let '(a1, n1, r1) := read_digits dig base s 0 0%nat in
  match r1 with
  | "."%char :: r1' =>
      let '(a2, n2, r2) := read_digits dig base r1' a1 0%nat in
      (a2, n1, n2, r2)
  | _ => (a1, n1, 0%nat, r1)
  end.

(** An exponent part introduced by [mark]; it counts only when at least
    one digit follows the optional sign. *)
Definition read_exponent (mark : ascii) (s : text) : Z :=
  match s with
  | c :: s' =>
      if Ascii.eqb (to_lower c) mark then
        let '(neg, s'') := read_sign s' in
        let '(e, n, _) := read_digits digit_of 10 s'' 0 0%nat in
        match n with
        | O => 0
        | _ => if neg then - e else e
        end
      else 0
  | [] => 0
  end.

Definition starts_with_nocase (p s : text) : bool :=
  (length p <=? length s)%nat &&
  forallb (fun '(a, b) => Ascii.eqb a (to_lower b)) (combine p s).

(** [ERANGE]: an infinite result, or a zero one from a non-zero literal.
    Whether a result that underflows to a subnormal is reported as out
    of range is implementation-defined; it is kept, as rounded. *)
Definition in_range (x : float) : option float :=
  match x with
  | S754_finite _ _ _ => Some x
  | _ => None
  end.

Definition stof (s : text) : option float :=
  let '(neg, s1) := read_sign (skip_spaces s) in
  if starts_with_nocase (str "inf") s1 then Some (S754_infinity neg)
  else if starts_with_nocase (str "nan") s1 then Some S754_nan
  else
    let hex :=
      match s1 with
      | "0"%char :: x :: s2 =>
          if Ascii.eqb (to_lower x) "x" then
            let '(m, n1, n2, r) := read_mantissa hexdigit_of 16 s2 in
            match (n1 + n2)%nat with
            | O => None
            | _ => Some (m, read_exponent "p" r - 4 * Z.of_nat n2)
            end
          else None
      | _ => None
      end in
    match hex with
    | Some (m, e2) =>
        if m =? 0 then Some (S754_zero neg) else in_range (of_binary neg m e2)
    | None =>
        let '(m, n1, n2, r) := read_mantissa digit_of 10 s1 in
        match (n1 + n2)%nat with
        | O => None
        | _ =>
            if m =? 0 then Some (S754_zero neg)
            else in_range (of_decimal neg m (read_exponent "e" r - Z.of_nat n2))
        end
    end.

(** *** [stream << std::fixed << std::setprecision(3) << x] *)

(** [num / den] rounded to the nearest integer, ties to even. *)
Definition round_half_even (num den : Z) : Z :=
  let q := num / den in
  match (2 * (num mod den) ?= den) with
  | Lt => q
  | Eq => if Z.even q then q else q + 1
  | Gt => q + 1
  end.

(** The magnitude [m * 2^e] in thousandths, rounded. *)
Definition thousandths (m : positive) (e : Z) : Z :=
  round_half_even (Zpos m * 1000 * 2 ^ Z.max e 0) (2 ^ Z.max (- e) 0).

Definition digit_char (d : Z) : ascii := ascii_of_nat (48 + Z.to_nat d).

Fixpoint decimal_digits (fuel : nat) (n : Z) (acc : text) : text :=
  match fuel with
  | O => acc
  | S fuel' =>
      let acc' := digit_char (n mod 10) :: acc in
      if n <? 10 then acc' else decimal_digits fuel' (n / 10) acc'
  end.

(** The decimal numeral of [n >= 0]; it has at most [log2 n + 1]
    digits. *)
Definition decimal (n : Z) : text :=
  decimal_digits (S (Z.to_nat (Z.log2 n))) n [].

(** Sign, integer part, point and three decimals of [n] thousandths. *)
Definition fixed3 (neg : bool) (n : Z) : text :=
  (if neg then ["-"%char] else []) ++ decimal (n / 1000) ++
  ["."%char; digit_char (n / 100 mod 10); digit_char (n / 10 mod 10);
   digit_char (n mod 10)].

Definition put_fixed3 (x : float) : text :=
  match x with
  | S754_zero s => fixed3 s 0
  | S754_finite s m e => fixed3 s (thousandths m e)
  | S754_infinity s => (if s then ["-"%char] else []) ++ str "inf"
  | S754_nan => str "nan"
  end.

End F32.

(** ** PresetTypes.h *)

Record PresetPaintColor := {
  r : F32.float;
  g : F32.float;
  b : F32.float
}.

(** [PresetPaintColor::operator==]. *)
Definition PresetPaintColor_eqb (x y : PresetPaintColor) : bool :=
  F32.eqb (r x) (r y) && F32.eqb (g x) (g y) && F32.eqb (b x) (b y).

Record PresetCustomization := {
  primaryColor : PresetPaintColor;
  accentColor : PresetPaintColor;
  carLabel : text;
  decalLabel : text;
  wheelsLabel : text;
  paintFinishMatte : bool;
  paintFinishPearlescent : bool
}.

Record CustomPreset := {
  name : text;
  loadoutCode : text;
  customization : PresetCustomization
}.

Abbreviation CustomPresetCollection := (list CustomPreset).

(** The member initialisers of [PresetCustomization]. *)
Definition default_customization : PresetCustomization := {|
  primaryColor := {| r := F32.of_decimal false 18 (-2);
                     g := F32.of_decimal false 18 (-2);
                     b := F32.of_decimal false 18 (-2) |};
  accentColor := {| r := F32.of_decimal false 9 (-1);
                    g := F32.of_decimal false 35 (-2);
                    b := F32.of_decimal false 15 (-2) |};
  carLabel := str "Octane";
  decalLabel := str "None";
  wheelsLabel := str "OEM";
  paintFinishMatte := false;
  paintFinishPearlescent := false
|}.

(** Assignments to one member of a preset's customization. *)
Definition set_primaryColor (c : PresetPaintColor) (p : CustomPreset) :=
  let k := customization p in
  {| name := name p; loadoutCode := loadoutCode p;
     customization := {| primaryColor := c; accentColor := accentColor k;
       carLabel := carLabel k; decalLabel := decalLabel k;
       wheelsLabel := wheelsLabel k; paintFinishMatte := paintFinishMatte k;
       paintFinishPearlescent := paintFinishPearlescent k |} |}.

Definition set_accentColor (c : PresetPaintColor) (p : CustomPreset) :=
  let k := customization p in
  {| name := name p; loadoutCode := loadoutCode p;
     customization := {| primaryColor := primaryColor k; accentColor := c;
       carLabel := carLabel k; decalLabel := decalLabel k;
       wheelsLabel := wheelsLabel k; paintFinishMatte := paintFinishMatte k;
       paintFinishPearlescent := paintFinishPearlescent k |} |}.

Definition set_carLabel (t : text) (p : CustomPreset) :=
  let k := customization p in
  {| name := name p; loadoutCode := loadoutCode p;
     customization := {| primaryColor := primaryColor k;
       accentColor := accentColor k;
       carLabel := t; decalLabel := decalLabel k;
       wheelsLabel := wheelsLabel k; paintFinishMatte := paintFinishMatte k;
       paintFinishPearlescent := paintFinishPearlescent k |} |}.

Definition set_decalLabel (t : text) (p : CustomPreset) :=
  let k := customization p in
  {| name := name p; loadoutCode := loadoutCode p;
     customization := {| primaryColor := primaryColor k;
       accentColor := accentColor k;
       carLabel := carLabel k; decalLabel := t;
       wheelsLabel := wheelsLabel k; paintFinishMatte := paintFinishMatte k;
       paintFinishPearlescent := paintFinishPearlescent k |} |}.

Definition set_wheelsLabel (t : text) (p : CustomPreset) :=
  let k := customization p in
  {| name := name p; loadoutCode := loadoutCode p;
     customization := {| primaryColor := primaryColor k;
       accentColor := accentColor k;
       carLabel := carLabel k; decalLabel := decalLabel k;
       wheelsLabel := t; paintFinishMatte := paintFinishMatte k;
       paintFinishPearlescent := paintFinishPearlescent k |} |}.

Definition set_paintFinishMatte (f : bool) (p : CustomPreset) :=
  let k := customization p in
  {| name := name p; loadoutCode := loadoutCode p;
     customization := {| primaryColor := primaryColor k;
       accentColor := accentColor k;
       carLabel := carLabel k; decalLabel := decalLabel k;
       wheelsLabel := wheelsLabel k; paintFinishMatte := f;
       paintFinishPearlescent := paintFinishPearlescent k |} |}.

Definition set_paintFinishPearlescent (f : bool) (p : CustomPreset) :=
  let k := customization p in
  {| name := name p; loadoutCode := loadoutCode p;
     customization := {| primaryColor := primaryColor k;
       accentColor := accentColor k;
       carLabel := carLabel k; decalLabel := decalLabel k;
       wheelsLabel := wheelsLabel k; paintFinishMatte := paintFinishMatte k;
       paintFinishPearlescent := f |} |}.

(** ** The colour token codec *)

(** [PresetManager::TokenizeLine]. *)
Definition TokenizeLine (line : text) : list text :=
  Text.getlines "|" line.

(** The body of the loop of [ParseColorToken]: the state is the running
    [index] and the colour built so far. *)
Definition ParseColorToken_step (st : nat * PresetPaintColor) (component : text)
    : nat * PresetPaintColor :=
  let '(index, color) := st in
  let value := match F32.stof component with
               | Some v => v
               | None => F32.zero
               end in
  let value := F32.max F32.zero value in
  let normalized :=
    if F32.lt F32.one value then F32.div value F32.c255 else value in
  let color :=
    match index with
    | 0 => {| r := normalized; g := g color; b := b color |}
    | 1 => {| r := r color; g := normalized; b := b color |}
    | 2 => {| r := r color; g := g color; b := normalized |}
    | _ => color
    end in
  (S index, color).

(** [PresetManager::ParseColorToken]. *)
Definition ParseColorToken (token : text) : PresetPaintColor :=
  snd (fold_left ParseColorToken_step (Text.getlines "," token)
         (0, {| r := F32.zero; g := F32.zero; b := F32.zero |})).

(** [PresetManager::SerializeColorToken]. *)
Definition SerializeColorToken (color : PresetPaintColor) : text :=
  F32.put_fixed3 (r color) ++ [","%char] ++
  F32.put_fixed3 (g color) ++ [","%char] ++
  F32.put_fixed3 (b color).

(** ** The preset collection *)

(** [std::find_if(first, last, pred) - first]: the position of the first
    element satisfying [pred], the size of the range when none does. *)
Fixpoint find_if {A : Type} (pred : A -> bool) (l : list A) : nat :=
  match l with
  | [] => 0
  | x :: l' => if pred x then 0 else S (find_if pred l')
  end.

(** [PresetManager::FindPreset]. *)
Definition FindPreset (presets : CustomPresetCollection) (n : text)
    : option CustomPreset :=
  let it := find_if (fun preset => Text.eqb (name preset) n) presets in
  if it =? length presets then None else presets !! it.

(** [PresetManager::FindPresetIndex]. *)
Definition FindPresetIndex (presets : CustomPresetCollection) (n : text) : nat :=
  let it := find_if (fun preset => Text.eqb (name preset) n) presets in
  if it =? length presets then length presets else it.

(** [PresetManager::AddOrUpdatePreset] on the collection. *)
Definition AddOrUpdatePreset (presets : CustomPresetCollection)
    (preset : CustomPreset) : CustomPresetCollection :=
  let index := FindPresetIndex presets (name preset) in
  if length presets <=? index
  then presets ++ [preset]
  else <[index := preset]> presets.

(** [PresetManager::RemovePreset] on the collection. *)
Definition RemovePreset (presets : CustomPresetCollection) (n : text)
    : CustomPresetCollection :=
  let index := FindPresetIndex presets n in
  if length presets <=? index
  then presets
  else delete index presets.

(** ** The two line formats *)

(** The body of the loop of [LoadFromStorage] up to the upsert: the
    preset a line of the storage file yields, [None] where the loop
    [continue]s. *)
Definition ParseStorageLine (line : text) : option CustomPreset :=
  let line := TrimWhitespace line in
  if Text.empty line || Text.front_is "#" line then None
  else
    let tokens := TokenizeLine line in
    if length tokens <? 2 then None
    else
      let token i := nth i tokens [] in
      let preset :=
        {| name := TrimWhitespace (token 0);
           loadoutCode := TrimWhitespace (token 1);
           customization := default_customization |} in
      let preset :=
        if 3 <=? length tokens
        then set_primaryColor (ParseColorToken (token 2)) preset else preset in
      let preset :=
        if 4 <=? length tokens
        then set_accentColor (ParseColorToken (token 3)) preset else preset in
      let preset :=
        if 5 <=? length tokens
        then set_carLabel (TrimWhitespace (token 4)) preset else preset in
      let preset :=
        if 6 <=? length tokens
        then set_decalLabel (TrimWhitespace (token 5)) preset else preset in
      let preset :=
        if 7 <=? length tokens
        then set_wheelsLabel (TrimWhitespace (token 6)) preset else preset in
      let preset :=
        if 8 <=? length tokens
        then set_paintFinishMatte
               (Text.eqb (token 7) (str "1") || Text.eqb (token 7) (str "true")
                || Text.eqb (token 7) (str "matte")) preset
        else preset in
      let preset :=
        if 9 <=? length tokens
        then set_paintFinishPearlescent
               (Text.eqb (token 8) (str "1") || Text.eqb (token 8) (str "true")
                || Text.eqb (token 8) (str "pearlescent")) preset
        else preset in
      Some preset.

(** The body of the loop of [RefreshFromVanillaPresets] up to the
    upsert. *)
Definition ParseVanillaLine (line : text) : option CustomPreset :=
  let line := TrimWhitespace line in
  if Text.empty line || Text.front_is "#" line then None
  else
    match Text.find_last_of Text.blanks line with
    | None => None
    | Some delimiterPos =>
        let preset :=
          {| name := TrimWhitespace (Text.substr line 0 delimiterPos);
             loadoutCode :=
               TrimWhitespace (Text.substr_from line (delimiterPos + 1));
             customization := default_customization |} in
        if Text.empty (name preset) || Text.empty (loadoutCode preset)
        then None
        else Some preset
    end.

(** One line of [SaveToStorage]. *)
Definition StorageLine (preset : CustomPreset) : text :=
  let k := customization preset in
  name preset ++ ["|"%char] ++
  loadoutCode preset ++ ["|"%char] ++
  SerializeColorToken (primaryColor k) ++ ["|"%char] ++
  SerializeColorToken (accentColor k) ++ ["|"%char] ++
  carLabel k ++ ["|"%char] ++
  decalLabel k ++ ["|"%char] ++
  wheelsLabel k ++ ["|"%char] ++
  [if paintFinishMatte k then "1"%char else "0"%char] ++ ["|"%char] ++
  [if paintFinishPearlescent k then "1"%char else "0"%char] ++
  ["010"%char].

(** ** The manager and the files it touches *)

(** The storage directory as [EnsureStorageDirectory] sees it: there, or
    missing and either creatable or not. *)
Inductive Directory :=
  | DirPresent
  | DirMissing (creatable : bool).

(** A file opened for reading: absent, present but [std::ifstream] fails
    to open it, or readable with the given content. *)
Inductive SourceFile :=
  | FileMissing
  | FileUnreadable
  | FileContent (content : text).

Record State := {
  (* PresetManager *)
  presets : CustomPresetCollection;
  storageFilePath : text;
  vanillaPresetsPath : text;
  (* cvarManager->log *)
  console : list text;
  (* the files *)
  storageDirectory : Directory;
  storageFile : option text;   (* what std::ifstream reads, when it opens *)
  storageWritable : bool;      (* std::ofstream opens it once the directory is there *)
  vanillaFile : SourceFile;
  files : text -> SourceFile   (* the files at other paths *)
}.

Definition set_presets (ps : CustomPresetCollection) (s : State) : State :=
  {| presets := ps; storageFilePath := storageFilePath s;
     vanillaPresetsPath := vanillaPresetsPath s; console := console s;
     storageDirectory := storageDirectory s; storageFile := storageFile s;
     storageWritable := storageWritable s; vanillaFile := vanillaFile s;
     files := files s |}.

(** [cvarManager->log(message)]. *)
Definition log (message : text) (s : State) : State :=
  {| presets := presets s; storageFilePath := storageFilePath s;
     vanillaPresetsPath := vanillaPresetsPath s;
     console := console s ++ [message];
     storageDirectory := storageDirectory s; storageFile := storageFile s;
     storageWritable := storageWritable s; vanillaFile := vanillaFile s;
     files := files s |}.

Definition set_storageDirectory (d : Directory) (s : State) : State :=
  {| presets := presets s; storageFilePath := storageFilePath s;
     vanillaPresetsPath := vanillaPresetsPath s; console := console s;
     storageDirectory := d; storageFile := storageFile s;
     storageWritable := storageWritable s; vanillaFile := vanillaFile s;
     files := files s |}.

Definition set_storageFile (content : text) (s : State) : State :=
  {| presets := presets s; storageFilePath := storageFilePath s;
     vanillaPresetsPath := vanillaPresetsPath s; console := console s;
     storageDirectory := storageDirectory s; storageFile := Some content;
     storageWritable := storageWritable s; vanillaFile := vanillaFile s;
     files := files s |}.

(** How a call ends: it returns, or an exception leaves it. Either way
    the state reached so far stays. *)
Inductive Outcome :=
  | Returns (s : State)
  | Throws (s : State).

Definition final (o : Outcome) : State :=
  match o with Returns s | Throws s => s end.

Definition returned (o : Outcome) : bool :=
  match o with Returns _ => true | Throws _ => false end.

(** [PresetManager::EnsureStorageDirectory]. The storage file lives in
    [<data folder>/ExpandedPresets], so its [parent_path()] is never
    empty. [std::filesystem::create_directories(directory)] is the
    overload without [std::error_code]: it reports failure by throwing
    [std::filesystem::filesystem_error]. *)
Definition EnsureStorageDirectory (s : State) : Outcome :=
  match storageDirectory s with
  | DirPresent => Returns s
  | DirMissing true => Returns (set_storageDirectory DirPresent s)
  | DirMissing false => Throws s
  end.

(** [PresetManager::SaveToStorage]. *)
Definition SaveToStorage (s : State) : Outcome :=
  match EnsureStorageDirectory s with
  | Throws s' => Throws s'
  | Returns s =>
      if storageWritable s
      then Returns (set_storageFile (concat (map StorageLine (presets s))) s)
      else Returns (log (str "ExpandedPresets: Failed to open storage file for writing: "
                           ++ storageFilePath s) s)
  end.

(** [AddOrUpdatePreset] as a member function. *)
Definition upsert (preset : CustomPreset) (s : State) : State :=
  set_presets (AddOrUpdatePreset (presets s) preset) s.

(** [while (std::getline(file, line)) { ...; AddOrUpdatePreset(preset); }]
    for a loop body that yields a preset or [continue]s. *)
Definition upsert_lines (parse : text -> option CustomPreset)
    (content : text) (s : State) : State :=
  fold_left (fun s line =>
               match parse line with
               | Some preset => upsert preset s
               | None => s
               end)
            (Text.getlines "010" content) s.

(** [PresetManager::RefreshFromVanillaPresets]. *)
Definition RefreshFromVanillaPresets (s : State) : State :=
  let s := set_presets [] s in
  match Text.empty (vanillaPresetsPath s), vanillaFile s with
  | true, _ | _, FileMissing =>
      log (str "ExpandedPresets: Could not find vanilla presets.data file to import presets.") s
  | _, FileUnreadable =>
      log (str "ExpandedPresets: Failed to open vanilla presets file: "
             ++ vanillaPresetsPath s) s
  | _, FileContent content => upsert_lines ParseVanillaLine content s
  end.

(** [PresetManager::LoadFromStorage]. *)
Definition LoadFromStorage (s : State) : Outcome :=
  let s := set_presets [] s in
  match storageFile s with
  | None =>
      let s := log (str "ExpandedPresets: No stored presets were found, importing from presets.data instead.") s in
      let s := RefreshFromVanillaPresets s in
      SaveToStorage s
  | Some content => Returns (upsert_lines ParseStorageLine content s)
  end.

(** ** Importing a catalog file *)

(** Modelled from the spec: the decision [PresetManager::ImportFromFile]
    takes for one valid record of the file, the function itself being
    absent from the sources (see below). A record whose name is already
    in the store is applied only when [overwriteExisting] is true and is
    otherwise skipped and not counted; a record with a new name is
    always added; [count] is the number of records added or overwritten
    so far. *)
Definition import_record (overwriteExisting : bool) (acc : State * nat)
    (incoming : CustomPreset) : State * nat :=
  let '(s, count) := acc in
  match FindPreset (presets s) (name incoming) with
  | Some _ =>
      if overwriteExisting then (upsert incoming s, S count) else (s, count)
  | None => (upsert incoming s, S count)
  end.

(** Modelled from the spec: [PresetManager::ImportFromFile], which
    [ExpandedPresetsPlugin::ImportBakkesPluginsCatalog] calls with the
    catalog path and the overwrite flag; PresetManager.h does not declare
    it and PresetManager.cpp does not define it. The spec's section 4.4:
    it parses a file in the persisted format found at [path], decides on
    each valid record as above and returns the number of records added
    or overwritten; a missing file is logged and gives 0. A valid record
    is a line the persisted format yields a record for. *)
Definition ImportFromFile (path : text) (overwriteExisting : bool) (s : State)
    : State * nat :=
  match files s path with
  | FileContent content =>
      fold_left (fun acc line =>
                   match ParseStorageLine line with
                   | Some incoming => import_record overwriteExisting acc incoming
                   | None => acc
                   end)
                (Text.getlines "010" content) (s, 0)
  | _ => (log (str "ExpandedPresets: Could not open preset file: " ++ path) s, 0)
  end.

(** ** Notions used by the statements *)

Module Fields.

(** The token sequence of a text, by recursion on the text: a
    delimiter closes the current token; the end of the text closes it
    only when something was read since the last delimiter. *)
Fixpoint split (delim : ascii) (s : text) : list text :=
  match s with
  | [] => []
  | c :: s' =>
      if Ascii.eqb c delim then [] :: split delim s'
      else match split delim s' with
           | [] => [[c]]
           | token :: tokens => (c :: token) :: tokens
           end
  end.

(** Fields written one after the other with [delim] between them. *)
Fixpoint join (delim : ascii) (fields : list text) : text :=
  match fields with
  | [] => []
  | [f] => f
  | f :: fields' => f ++ delim :: join delim fields'
  end.

(** [delim] does not occur in [s]. *)
Definition free (delim : ascii) (s : text) : bool :=
  forallb (fun c => negb (Ascii.eqb c delim)) s.

(** What the [getline] loop makes of fields that were joined: a last
    field that is empty is not seen. *)
Definition visible (fields : list text) : list text :=
  match last fields with
  | Some [] => removelast fields
  | _ => fields
  end.

End Fields.

Module Strip.

(** [s] without its longest suffix made of characters of [chars]. *)
Fixpoint rstrip (chars s : text) : text :=
  match s with
  | [] => []
  | c :: s' =>
      match rstrip chars s' with
      | [] => if Text.mem c chars then [] else [c]
      | kept => c :: kept
      end
  end.

(** [s] without its longest prefix and suffix made of characters of
    [chars]. *)
Fixpoint strip (chars s : text) : text :=
  match s with
  | [] => []
  | c :: s' => if Text.mem c chars then strip chars s' else c :: rstrip chars s'
  end.

(** Every character of [s] is one of [chars]. *)
Definition all_in (chars s : text) : bool :=
  forallb (fun c => Text.mem c chars) s.

(** No character of [s] is one of [chars]. *)
Definition none_in (chars s : text) : bool :=
  forallb (fun c => negb (Text.mem c chars)) s.

Definition outside (chars : text) (c : option ascii) : bool :=
  match c with
  | Some c => negb (Text.mem c chars)
  | None => true
  end.

(** [s] neither starts nor ends with a space, tab, carriage return or
    newline. *)
Definition trimmed (s : text) : bool :=
  outside Text.whitespace (head s) && outside Text.whitespace (last s).

End Strip.

(** The five text members of a preset are trimmed. *)
Definition trimmed_fields (p : CustomPreset) : bool :=
  Strip.trimmed (name p) && Strip.trimmed (loadoutCode p) &&
  Strip.trimmed (carLabel (customization p)) &&
  Strip.trimmed (decalLabel (customization p)) &&
  Strip.trimmed (wheelsLabel (customization p)).

(** The presets the lines of a file yield under a line format, in file
    order. *)
Definition records (parse : text -> option CustomPreset) (content : text)
    : list CustomPreset :=
  omap parse (Text.getlines "010" content).

(** [s] is [before], a run of tabs and spaces, and [after], where the
    run is the last one of [s]: no tab or space follows it and it cannot
    be extended to the left. *)
Definition last_run_split (s before after : text) : Prop :=
  exists run : text,
    s = before ++ run ++ after /\
    run <> [] /\
    Strip.all_in Text.blanks run = true /\
    Strip.none_in Text.blanks after = true /\
    Strip.outside Text.blanks (last before) = true.

(** A preset as the vanilla format yields it: a name, a code and the
    default customization. *)
Definition vanilla_preset (n code : text) : CustomPreset :=
  {| name := n; loadoutCode := code; customization := default_customization |}.


(** The channel with a given position in a token: red, green, blue. *)
Definition channel (i : nat) (c : PresetPaintColor) : F32.float :=
  match i with
  | 0 => r c
  | 1 => g c
  | _ => b c
  end.

(** What one component of a colour token contributes, [None] being a
    component the token does not have. *)
Definition decode_component (component : option text) : F32.float :=
  match component with
  | None => F32.zero
  | Some component =>
      match F32.stof component with
      | None => F32.zero
      | Some v =>
          if F32.lt F32.zero v
          then (if F32.lt F32.one v then F32.div v F32.c255 else v)
          else F32.zero
      end
  end.

(** ** A save followed by a load *)

(** A binary32 value from 0.0 to 1.0. *)
Definition unit_channel (x : F32.float) : bool :=
  valid_binary F32.prec F32.emax x && F32.le F32.zero x && F32.le x F32.one.

Definition unit_color (c : PresetPaintColor) : bool :=
  unit_channel (r c) && unit_channel (g c) && unit_channel (b c).

(** Two channels that differ by no more than half a thousandth, plus the
    binary32 rounding of the three-decimal numeral. *)
Definition close (x y : F32.float) : Prop :=
  match F32.to_Q x, F32.to_Q y with
  | Some p, Some q => (Qabs (p - q) <= 501 # 1000000)%Q
  | _, _ => False
  end.

Definition close_color (c d : PresetPaintColor) : Prop :=
  close (r c) (r d) /\ close (g c) (g d) /\ close (b c) (b d).

(** The same record, colours up to the precision of the format. *)
Definition same_record (p q : CustomPreset) : Prop :=
  name p = name q /\ loadoutCode p = loadoutCode q /\
  close_color (primaryColor (customization p)) (primaryColor (customization q)) /\
  close_color (accentColor (customization p)) (accentColor (customization q)) /\
  carLabel (customization p) = carLabel (customization q) /\
  decalLabel (customization p) = decalLabel (customization q) /\
  wheelsLabel (customization p) = wheelsLabel (customization q) /\
  paintFinishMatte (customization p) = paintFinishMatte (customization q) /\
  paintFinishPearlescent (customization p) =
    paintFinishPearlescent (customization q).

(** What the three-decimal numeral of [n] thousandths decodes to is
    within a millionth of [n/1000], and the numeral is a non-empty text
    without comma, bar or newline. *)
Definition numeral_ok (neg : bool) (n : Z) : bool :=
  let t := F32.fixed3 neg n in
  negb (Text.empty t) && Fields.free "," t && Fields.free "|" t &&
  Fields.free "010" t &&
  match F32.to_Q (decode_component (Some t)) with
  | Some q => Qle_bool (Qabs (q - (n # 1000))) (1 # 1000000)
  | None => false
  end.

(** A text the format carries unchanged: no bar, no newline, nothing to
    trim. *)
Definition plain (s : text) : bool :=
  Fields.free "|" s && Fields.free "010" s && Strip.trimmed s.

(** A record the format carries: name and code are not empty, the name
    does not start a comment, the five texts are plain, the channels are
    between 0.0 and 1.0. *)
Definition storable (p : CustomPreset) : bool :=
  negb (Text.empty (name p)) && negb (Text.front_is "#" (name p)) &&
  negb (Text.empty (loadoutCode p)) &&
  plain (name p) && plain (loadoutCode p) &&
  plain (carLabel (customization p)) &&
  plain (decalLabel (customization p)) &&
  plain (wheelsLabel (customization p)) &&
  unit_color (primaryColor (customization p)) &&
  unit_color (accentColor (customization p)).

(** A record with its two colours written as tokens and read back. *)
Definition reread (p : CustomPreset) : CustomPreset :=
  let k := customization p in
  {| name := name p; loadoutCode := loadoutCode p;
     customization :=
       {| primaryColor := ParseColorToken (SerializeColorToken (primaryColor k));
          accentColor := ParseColorToken (SerializeColorToken (accentColor k));
          carLabel := carLabel k; decalLabel := decalLabel k;
          wheelsLabel := wheelsLabel k;
          paintFinishMatte := paintFinishMatte k;
          paintFinishPearlescent := paintFinishPearlescent k |} |}.

(** [StorageLine] without its newline. *)
Definition StorageLine_body (preset : CustomPreset) : text :=
  let k := customization preset in
  name preset ++ "|"%char ::
  loadoutCode preset ++ "|"%char ::
  SerializeColorToken (primaryColor k) ++ "|"%char ::
  SerializeColorToken (accentColor k) ++ "|"%char ::
  carLabel k ++ "|"%char ::
  decalLabel k ++ "|"%char ::
  wheelsLabel k ++ "|"%char ::
  [if paintFinishMatte k then "1"%char else "0"%char; "|"%char;
   if paintFinishPearlescent k then "1"%char else "0"%char].

(** The claim of the round trip at one state: if every record has a
    non-empty name and code and unit channels, saving and then loading
    gives the same records in the same order, colours up to the
    precision. *)
Definition roundtrip_claim (s : State) : Prop :=
  Forall (fun p => name p <> [] /\ loadoutCode p <> [] /\
                   unit_color (primaryColor (customization p)) = true /\
                   unit_color (accentColor (customization p)) = true)
         (presets s) ->
  Forall2 same_record (presets s)
          (presets (final (LoadFromStorage (final (SaveToStorage s))))).

(** ** Sample data *)

Definition example_first : CustomPreset :=
  {| name := str "Octane Classic"; loadoutCode := str "AAAA-1111";
     customization := default_customization |}.

Definition example_second : CustomPreset :=
  set_paintFinishMatte true
    {| name := str "Octane Classic"; loadoutCode := str "BBBB-2222";
       customization := default_customization |}.

Definition example_other : CustomPreset :=
  {| name := str "Team GT"; loadoutCode := str "RLCS-AAAA-BBBB-CCCC-DDDD";
     customization := default_customization |}.

(** A session with one stored preset, nothing on disk yet. *)
Definition example_state : State :=
  {| presets := [example_other];
     storageFilePath := str "./bakkesmod/data/ExpandedPresets/expanded_presets.cfg";
     vanillaPresetsPath := str "./bakkesmod/data/presets.data";
     console := [];
     storageDirectory := DirMissing true;
     storageFile := None;
     storageWritable := true;
     vanillaFile := FileMissing;
     files := fun _ => FileMissing |}.

(** The catalog of the spec's overwrite example: a record whose name is
    already stored and a new one. *)
Definition example_catalog : text :=
  str "# catalog
Octane Classic|BBBB-2222|0.5,0.5,0.5|1,1,1|Octane|None|OEM|1|0
Fennec Stealth|CCCC-3333
".

Definition example_catalog_path : text :=
  str "./bakkesmod/data/ExpandedPresets/bakkesplugins_cars.cfg".

(** A store holding "Octane Classic", with the catalog on disk. *)
Definition example_store : State :=
  {| presets := [example_first; example_other];
     storageFilePath := storageFilePath example_state;
     vanillaPresetsPath := vanillaPresetsPath example_state;
     console := [];
     storageDirectory := DirPresent;
     storageFile := None;
     storageWritable := true;
     vanillaFile := FileMissing;
     files := fun path =>
       if Text.eqb path example_catalog_path
       then FileContent example_catalog else FileMissing |}.

(** A record whose name starts with a space, in an otherwise empty
    session that can write its storage file. *)
Definition example_padded : CustomPreset :=
  {| name := str " Octane Classic"; loadoutCode := str "AAAA-1111";
     customization := default_customization |}.

Definition example_padded_state : State :=
  set_presets [example_padded] example_state.

(** ** Notions used by the statements on the two imports *)

(** The records an import that does not overwrite adds. Going through
    the records of the file in order, a record is left out when its name
    is among [names], the names in the store at that moment; a record
    that is added brings its name into the store. *)
Fixpoint new_records (names : list text) (incoming : list CustomPreset)
    : list CustomPreset :=
  match incoming with
  | [] => []
  | p :: rest =>
      if existsb (Text.eqb (name p)) names
      then new_records names rest
      else p :: new_records (names ++ [name p]) rest
  end.

(** A valid line of the vanilla format and the record it stands for:
    trimmed, the line is no comment and splits at its last run of tabs
    and spaces into a name and a code, neither of them empty. *)
Definition vanilla_line (line : text) (p : CustomPreset) : Prop :=
  let t := TrimWhitespace line in
  Text.front_is "#" t = false /\
  exists before after,
    last_run_split t before after /\
    TrimWhitespace before <> [] /\ TrimWhitespace after <> [] /\
    p = vanilla_preset (TrimWhitespace before) (TrimWhitespace after).

(** A catalog that names one preset twice. *)
Definition example_repeats : text :=
  str "Fennec Stealth|CCCC-3333
Fennec Stealth|DDDD-4444
".

(** An empty store with that catalog on disk. *)
Definition example_repeats_store : State :=
  {| presets := [];
     storageFilePath := storageFilePath example_state;
     vanillaPresetsPath := vanillaPresetsPath example_state;
     console := [];
     storageDirectory := DirPresent;
     storageFile := None;
     storageWritable := true;
     vanillaFile := FileMissing;
     files := fun path =>
       if Text.eqb path example_catalog_path
       then FileContent example_repeats else FileMissing |}.

(** A presets.data with a comment, a line without a code, and one name
    on two lines. *)
Definition example_vanilla : text :=
  str "# presets.data
Team GT  RLCS-AAAA-BBBB-CCCC-DDDD
Dominus
Octane Classic	AAAA-1111
Team GT RLCS-EEEE-FFFF
".

(** A store that holds a vanilla record and a custom one, with that
    presets.data on disk. *)
Definition example_vanilla_state : State :=
  {| presets := [example_first; example_padded];
     storageFilePath := storageFilePath example_state;
     vanillaPresetsPath := vanillaPresetsPath example_state;
     console := [];
     storageDirectory := DirPresent;
     storageFile := None;
     storageWritable := true;
     vanillaFile := FileContent example_vanilla;
     files := fun _ => FileMissing |}.

(** ** ExpandedPresetsPlugin.cpp *)

(** [std::tolower] on an [unsigned char], in the "C" locale the program
    runs in: the letters A to Z are mapped, nothing else. *)
Definition tolower (c : ascii) : ascii :=
  let n := nat_of_ascii c in
  if (65 <=? n) && (n <=? 90) then ascii_of_nat (n + 32) else c.

(** [ToLower] of the plugin's anonymous namespace. *)
Definition ToLower (value : text) : text := map tolower value.

(** [s] starts with [p]. *)
Fixpoint starts_with (p s : text) : bool :=
  match p, s with
  | [], _ => true
  | c :: p', d :: s' => Ascii.eqb c d && starts_with p' s'
  | _ :: _, [] => false
  end.

(** [haystack.find(needle)]: the first position [needle] occurs at, [None]
    for [npos]. The empty needle is found at 0. *)
Fixpoint string_find (haystack needle : text) : option nat :=
  match haystack with
  | [] => if starts_with needle [] then Some 0 else None
  | _ :: haystack' =>
      if starts_with needle haystack then Some 0
      else option_map S (string_find haystack' needle)
  end.

(** [pos == std::string::npos]. *)
Definition is_npos (pos : option nat) : bool :=
  match pos with None => true | Some _ => false end.

(** The test that makes the filter loop of [RenderPresetList] [continue]. *)
Definition filtered_out (filterLower : text) (preset : CustomPreset) : bool :=
  negb (Text.empty filterLower) &&
  (let nameLower := ToLower (name preset) in
   let codeLower := ToLower (loadoutCode preset) in
   is_npos (string_find nameLower filterLower) &&
   is_npos (string_find codeLower filterLower)).

(** The loop of [RenderPresetList] that fills [filteredIndices]: [i] is
    the running index, [rest] the presets from [i] on. *)
Fixpoint filter_loop (filterLower : text) (i : nat) (rest : CustomPresetCollection)
    (filteredIndices : list nat) : list nat :=
  match rest with
  | [] => filteredIndices
  | preset :: rest' =>
      filter_loop filterLower (S i) rest'
        (if filtered_out filterLower preset
         then filteredIndices
         else filteredIndices ++ [i])
  end.

(** The indices [RenderPresetList] lists for a search text. *)
Definition filteredIndices (pendingFilter : text) (presets : CustomPresetCollection)
    : list nat :=
  filter_loop (ToLower pendingFilter) 0 presets [].

(** The plugin once [onLoad] has run: [presetManager] is set (with the
    log sink and files of [State]); the members the modelled handlers
    read and write. *)
Record Plugin := {
  presetManager : State;
  pendingFilter : text;
  editingPreset : CustomPreset;
  selectedPresetIndex : Z
}.

Definition set_presetManager (m : State) (pl : Plugin) : Plugin :=
  {| presetManager := m; pendingFilter := pendingFilter pl;
     editingPreset := editingPreset pl;
     selectedPresetIndex := selectedPresetIndex pl |}.

Definition set_selectedPresetIndex (i : Z) (pl : Plugin) : Plugin :=
  {| presetManager := presetManager pl; pendingFilter := pendingFilter pl;
     editingPreset := editingPreset pl; selectedPresetIndex := i |}.

(** [ExpandedPresetsPlugin::ResetEditingPreset]. *)
Definition ResetEditingPreset (pl : Plugin) : Plugin :=
  {| presetManager := presetManager pl; pendingFilter := pendingFilter pl;
     editingPreset := {| name := []; loadoutCode := [];
                         customization := default_customization |};
     selectedPresetIndex := selectedPresetIndex pl |}.

(** [static_cast<int>] of a [std::size_t]: the low 32 bits, read as a
    two's complement number. *)
Definition int_of_size (n : nat) : Z :=
  let low := (Z.of_nat n mod 2 ^ 32)%Z in
  if (low <? 2 ^ 31)%Z then low else (low - 2 ^ 32)%Z.

(** How a handler of the plugin ends. *)
Inductive PluginOutcome :=
  | PluginReturns (pl : Plugin)
  | PluginThrows (pl : Plugin).

Definition plugin_final (o : PluginOutcome) : Plugin :=
  match o with PluginReturns pl | PluginThrows pl => pl end.

(** The body of [if (ImGui::Button("Add / Update"))] in
    [RenderPresetEditor]. *)
Definition AddUpdate_pressed (pl : Plugin) : PluginOutcome :=
  if Text.empty (name (editingPreset pl)) ||
     Text.empty (loadoutCode (editingPreset pl))
  then PluginReturns
         (set_presetManager
            (log (str "ExpandedPresets: A preset name and loadout code are required.")
                 (presetManager pl)) pl)
  else
    match SaveToStorage (upsert (editingPreset pl) (presetManager pl)) with
    | Throws m => PluginThrows (set_presetManager m pl)
    | Returns m =>
        PluginReturns
          (set_selectedPresetIndex
             (int_of_size (FindPresetIndex (presets m) (name (editingPreset pl))))
             (set_presetManager m pl))
    end.

(** The body of [if (ImGui::Button("Delete"))] in [RenderPresetEditor];
    the button is drawn only when [selectedPresetIndex >= 0]. The guard
    makes the index a valid one, so the [None] arm is never taken. *)
Definition Delete_pressed (pl : Plugin) : PluginOutcome :=
  if (0 <=? selectedPresetIndex pl)%Z then
    let ps := presets (presetManager pl) in
    if (selectedPresetIndex pl <? int_of_size (length ps))%Z then
      match ps !! Z.to_nat (selectedPresetIndex pl) with
      | Some selected =>
          let m := set_presets (RemovePreset ps (name selected))
                     (presetManager pl) in
          match SaveToStorage m with
          | Throws m' => PluginThrows (set_presetManager m' pl)
          | Returns m' =>
              PluginReturns
                (ResetEditingPreset
                   (set_selectedPresetIndex (-1) (set_presetManager m' pl)))
          end
      | None => PluginReturns pl
      end
    else PluginReturns pl
  else PluginReturns pl.

(** [ExpandedPresetsPlugin::ImportVanillaPresets]. A [std::size_t] sent to
    the [std::stringstream] is written as its decimal numeral. *)
Definition ImportVanillaPresets (pl : Plugin) : PluginOutcome :=
  let previousCount := length (presets (presetManager pl)) in
  let m := RefreshFromVanillaPresets (presetManager pl) in
  match SaveToStorage m with
  | Throws m' => PluginThrows (set_presetManager m' pl)
  | Returns m' =>
      let newCount := length (presets m') in
      let message :=
        str "ExpandedPresets: Imported " ++ F32.decimal (Z.of_nat newCount) ++
        str " presets from presets.data" ++
        (if newCount <? previousCount
         then str " (duplicates were overwritten)" else []) in
      PluginReturns
        (set_presetManager (log message m')
           (ResetEditingPreset (set_selectedPresetIndex (-1) pl)))
  end.

(** ** Notions used by the further properties *)

(** [s] ends with the character [c]. *)
Definition ends_with (c : ascii) (s : text) : bool :=
  match last s with
  | Some d => Ascii.eqb d c
  | None => false
  end.

(** [needle] occurs in [haystack]. *)
Definition occurs_in (needle haystack : text) : Prop :=
  exists before after, haystack = before ++ needle ++ after.

(** A channel that compares [0.0f <= x]: not NaN and not negative. *)
Definition not_negative (x : F32.float) : bool := F32.le F32.zero x.

(** A result of a rounding that is neither NaN nor of negative sign. *)
Definition plus_signed (x : spec_float) : bool :=
  match x with
  | S754_zero s | S754_infinity s | S754_finite s _ _ => negb s
  | S754_nan => false
  end.

(** The numeral of [n] thousandths decodes to a unit channel that is
    written as this numeral again. *)
Definition numeral_stable (n : Z) : bool :=
  let y := decode_component (Some (F32.fixed3 false n)) in
  unit_channel y && Text.eqb (F32.put_fixed3 y) (F32.fixed3 false n).

(** The window on the sample store, its second row selected. *)
Definition example_plugin : Plugin :=
  {| presetManager := example_store; pendingFilter := [];
     editingPreset := example_other; selectedPresetIndex := 1 |}.

(** * Properties *)

(** ** Text primitives *)

Lemma ascii_eqb_true (c d : ascii) : Ascii.eqb c d = true <-> c = d.
Proof. apply Ascii.eqb_eq. Qed.

Lemma Text_eqb_eq (a b : text) : Text.eqb a b = true <-> a = b.
Proof.
  revert b; induction a as [|c a IH]; intros [|d b]; simpl; split;
    try congruence; try reflexivity.
  - intros [Hc Hab]%andb_prop. apply Ascii.eqb_eq in Hc. apply IH in Hab.
    congruence.
  - intros [= -> ->]. rewrite Ascii.eqb_refl. simpl. now apply IH.
Qed.

Lemma Text_eqb_refl (a : text) : Text.eqb a a = true.
Proof. now apply Text_eqb_eq. Qed.

Lemma Text_eqb_neq (a b : text) : Text.eqb a b = false <-> a <> b.
Proof.
  rewrite <- Text_eqb_eq. destruct (Text.eqb a b); split; congruence.
Qed.

(** *** The [getline] loop *)

Lemma extract_shorter delim (s : text) :
  length (snd (Text.extract delim s)) <= Nat.pred (length s).
Proof.
  induction s as [|c s IH]; simpl; [lia|].
  destruct (Ascii.eqb c delim); simpl; [lia|].
  destruct (Text.extract delim s) as [token rest]; simpl in *. lia.
Qed.

Lemma split_extract delim (c : ascii) (s : text) :
  Fields.split delim (c :: s) =
  fst (Text.extract delim (c :: s))
    :: Fields.split delim (snd (Text.extract delim (c :: s))).
Proof.
  revert c; induction s as [|d s IH]; intros c; simpl.
  - destruct (Ascii.eqb c delim); reflexivity.
  - specialize (IH d). simpl in IH.
    destruct (Ascii.eqb c delim); [reflexivity|].
    rewrite IH.
    destruct (Ascii.eqb d delim); [reflexivity|].
    destruct (Text.extract delim s) as [token rest]; reflexivity.
Qed.

Lemma getline_loop_split delim (fuel : nat) (s : text) :
  length s < fuel -> Text.getline_loop fuel delim s = Fields.split delim s.
Proof.
  revert s; induction fuel as [|fuel IH]; intros s Hlen; [lia|].
  destruct s as [|c s]; [reflexivity|].
  cbn [Text.getline_loop Text.getline].
  rewrite split_extract.
  pose proof (extract_shorter delim (c :: s)) as Hs.
  destruct (Text.extract delim (c :: s)) as [token rest]; simpl in *.
  f_equal. apply IH. lia.
Qed.

Lemma getlines_split delim (s : text) :
  Text.getlines delim s = Fields.split delim s.
Proof. apply getline_loop_split. lia. Qed.

Lemma split_field_delim delim (f s : text) :
  Fields.free delim f = true ->
  Fields.split delim (f ++ delim :: s) = f :: Fields.split delim s.
Proof.
  induction f as [|c f IH]; simpl.
  - intros _. now rewrite Ascii.eqb_refl.
  - intros [Hc Hf]%andb_prop. apply negb_true_iff in Hc. rewrite Hc.
    now rewrite IH.
Qed.

Lemma split_field_end delim (c : ascii) (f : text) :
  Fields.free delim (c :: f) = true ->
  Fields.split delim (c :: f) = [c :: f].
Proof.
  revert c; induction f as [|d f IH]; intros c; simpl.
  - intros [Hc _]%andb_prop. apply negb_true_iff in Hc. now rewrite Hc.
  - intros [Hc Hf]%andb_prop. apply negb_true_iff in Hc. rewrite Hc.
    specialize (IH d Hf). simpl in IH. now rewrite IH.
Qed.

Lemma split_join delim (fields : list text) :
  Forall (fun f => Fields.free delim f = true) fields ->
  Fields.split delim (Fields.join delim fields) = Fields.visible fields.
Proof.
  induction 1 as [|f fields Hf Hall IH]; [reflexivity|].
  destruct fields as [|f' fields].
  - simpl. destruct f as [|c f]; [reflexivity|]. now apply split_field_end.
  - change (Fields.join delim (f :: f' :: fields))
      with (f ++ delim :: Fields.join delim (f' :: fields)).
    rewrite split_field_delim, IH by assumption.
    unfold Fields.visible. rewrite (last_cons_cons f f' fields).
    destruct (last (f' :: fields)) as [[|]|]; reflexivity.
Qed.

(** *** Trimming *)

Lemma rstrip_find_last_not_of chars (s : text) :
  Strip.rstrip chars s =
  match Text.find_last_not_of chars s with
  | Some i => take (S i) s
  | None => []
  end.
Proof.
  induction s as [|c s IH]; [reflexivity|].
  simpl. rewrite IH.
  destruct (Text.find_last_not_of chars s) as [i|] eqn:E.
  - destruct s; [discriminate|reflexivity].
  - destruct (Text.mem c chars); reflexivity.
Qed.

Lemma find_first_last_not_of chars (s : text) (first : nat) :
  Text.find_first_not_of chars s = Some first ->
  exists last, Text.find_last_not_of chars s = Some last /\ first <= last.
Proof.
  revert first; induction s as [|c s IH]; intros first; simpl; [discriminate|].
  destruct (Text.mem c chars) eqn:Hc.
  - destruct (Text.find_first_not_of chars s) as [f|]; [|discriminate].
    intros [= <-]. destruct (IH f eq_refl) as (l & -> & Hl).
    exists (S l). split; [reflexivity|lia].
  - intros [= <-].
    destruct (Text.find_last_not_of chars s) as [l|]; eexists; split;
      try reflexivity; lia.
Qed.

Lemma TrimWhitespace_strip (s : text) :
  TrimWhitespace s = Strip.strip Text.whitespace s.
Proof.
  unfold TrimWhitespace. induction s as [|c s IH]; [reflexivity|].
  cbn [Text.find_first_not_of Text.find_last_not_of Strip.strip].
  destruct (Text.mem c Text.whitespace) eqn:Hc.
  - rewrite <- IH.
    destruct (Text.find_first_not_of Text.whitespace s) as [f|] eqn:Ef;
      [|reflexivity].
    destruct (find_first_last_not_of _ _ _ Ef) as (l & -> & Hl).
    cbn [option_map]. unfold Text.substr. cbn [drop].
    replace (S l - S f + 1) with (l - f + 1) by lia. reflexivity.
  - rewrite rstrip_find_last_not_of.
    destruct (Text.find_last_not_of Text.whitespace s) as [l|];
      unfold Text.substr; cbn [drop].
    + replace (S l - 0 + 1) with (S (S l)) by lia. reflexivity.
    + reflexivity.
Qed.

Lemma rstrip_last chars (s : text) :
  Strip.outside chars (last (Strip.rstrip chars s)) = true.
Proof.
  induction s as [|c s IH]; [reflexivity|].
  simpl. destruct (Strip.rstrip chars s) as [|d kept] eqn:E.
  - destruct (Text.mem c chars) eqn:Hc; simpl; [reflexivity|now rewrite Hc].
  - now rewrite last_cons_cons.
Qed.

Lemma rstrip_id chars (s : text) :
  Strip.outside chars (last s) = true -> Strip.rstrip chars s = s.
Proof.
  induction s as [|c s IH]; [reflexivity|].
  destruct s as [|d s].
  - simpl. intros ->%negb_true_iff. reflexivity.
  - rewrite last_cons_cons. intros H. specialize (IH H).
    change (Strip.rstrip chars (c :: d :: s))
      with (match Strip.rstrip chars (d :: s) with
            | [] => if Text.mem c chars then [] else [c]
            | kept => c :: kept
            end).
    now rewrite IH.
Qed.

Lemma strip_trimmed_gen chars (s : text) :
  Strip.outside chars (head (Strip.strip chars s)) = true /\
  Strip.outside chars (last (Strip.strip chars s)) = true.
Proof.
  induction s as [|c s IH]; [split; reflexivity|].
  simpl. destruct (Text.mem c chars) eqn:Hc; [exact IH|].
  split; [simpl; now rewrite Hc|].
  pose proof (rstrip_last chars s) as Hl.
  destruct (Strip.rstrip chars s) as [|d kept].
  - simpl. now rewrite Hc.
  - now rewrite last_cons_cons.
Qed.

Lemma strip_id chars (s : text) :
  Strip.outside chars (head s) = true ->
  Strip.outside chars (last s) = true ->
  Strip.strip chars s = s.
Proof.
  destruct s as [|c s]; [reflexivity|].
  simpl. intros ->%negb_true_iff Hl. f_equal.
  destruct s as [|d s]; [reflexivity|].
  rewrite last_cons_cons in Hl. now apply rstrip_id.
Qed.

Lemma TrimWhitespace_trimmed (s : text) :
  Strip.trimmed (TrimWhitespace s) = true.
Proof.
  rewrite TrimWhitespace_strip. unfold Strip.trimmed.
  destruct (strip_trimmed_gen Text.whitespace s) as [-> ->]. reflexivity.
Qed.

Lemma TrimWhitespace_id (s : text) :
  Strip.trimmed s = true -> TrimWhitespace s = s.
Proof.
  unfold Strip.trimmed. intros [Hh Hl]%andb_prop.
  rewrite TrimWhitespace_strip. now apply strip_id.
Qed.

Lemma rstrip_app_all_in chars (s w : text) :
  Strip.all_in chars w = true ->
  Strip.rstrip chars (s ++ w) = Strip.rstrip chars s.
Proof.
  intros Hw.
  assert (Hnil : Strip.rstrip chars w = []).
  { induction w as [|c w IH]; [reflexivity|].
    simpl in *. apply andb_prop in Hw as [Hc Hw]. now rewrite IH, Hc. }
  induction s as [|c s IH]; simpl; [exact Hnil|]. now rewrite IH.
Qed.

Lemma strip_app_all_in chars (s w : text) :
  Strip.all_in chars w = true ->
  Strip.strip chars (s ++ w) = Strip.strip chars s.
Proof.
  intros Hw. induction s as [|c s IH]; simpl.
  - induction w as [|c w IH]; [reflexivity|].
    simpl in *. apply andb_prop in Hw as [-> Hw]. now apply IH.
  - rewrite IH. now rewrite rstrip_app_all_in.
Qed.

(** ** The collection *)

Lemma find_if_le {A} (pred : A -> bool) (l : list A) :
  find_if pred l <= length l.
Proof.
  induction l as [|x l IH]; simpl; [lia|]. destruct (pred x); lia.
Qed.

Lemma find_if_found {A} (pred : A -> bool) (l : list A) :
  find_if pred l < length l ->
  exists x, l !! find_if pred l = Some x /\ pred x = true.
Proof.
  induction l as [|x l IH]; simpl; [lia|].
  destruct (pred x) eqn:Hx; [now exists x|].
  intros H. apply IH. lia.
Qed.

Lemma find_if_none {A} (pred : A -> bool) (l : list A) :
  find_if pred l = length l <-> Forall (fun x => pred x = false) l.
Proof.
  induction l as [|x l IH]; simpl.
  - split; [constructor|reflexivity].
  - destruct (pred x) eqn:Hx.
    + split; [discriminate|]. intros H. inversion H; congruence.
    + split.
      * intros [= H]. constructor; [assumption|now apply IH].
      * intros H. inversion H; subst. f_equal. now apply IH.
Qed.

Lemma find_if_app_r {A} (pred : A -> bool) (l l' : list A) :
  find_if pred l = length l ->
  find_if pred (l ++ l') = length l + find_if pred l'.
Proof.
  induction l as [|x l IH]; simpl; [reflexivity|].
  destruct (pred x); [discriminate|]. intros [= H]. now rewrite IH.
Qed.

Lemma find_if_insert {A} (pred : A -> bool) (l : list A) (x : A) :
  pred x = true ->
  find_if pred (<[find_if pred l := x]> l) = find_if pred l.
Proof.
  intros Hx. induction l as [|y l IH]; [reflexivity|].
  simpl. destruct (pred y) eqn:Hy; simpl.
  - now rewrite Hx.
  - now rewrite Hy, IH.
Qed.

Lemma FindPresetIndex_find_if (ps : CustomPresetCollection) (n : text) :
  FindPresetIndex ps n = find_if (fun preset => Text.eqb (name preset) n) ps.
Proof.
  unfold FindPresetIndex.
  destruct (Nat.eqb_spec (find_if (fun preset => Text.eqb (name preset) n) ps)
              (length ps)); congruence.
Qed.

Lemma FindPresetIndex_le (ps : CustomPresetCollection) (n : text) :
  FindPresetIndex ps n <= length ps.
Proof. rewrite FindPresetIndex_find_if. apply find_if_le. Qed.

Lemma FindPresetIndex_absent (ps : CustomPresetCollection) (n : text) :
  FindPresetIndex ps n = length ps <-> Forall (fun p => name p <> n) ps.
Proof.
  rewrite FindPresetIndex_find_if, find_if_none.
  apply Forall_iff. intros p. apply Text_eqb_neq.
Qed.

(** An upsert leaves the record at the index its name is found at, be it
    the old index or the new last one. *)
Lemma AddOrUpdatePreset_index (ps : CustomPresetCollection) (p : CustomPreset) :
  let ps' := AddOrUpdatePreset ps p in
  FindPresetIndex ps' (name p) = FindPresetIndex ps (name p) /\
  FindPresetIndex ps' (name p) < length ps' /\
  ps' !! FindPresetIndex ps (name p) = Some p.
Proof.
  cbn zeta. unfold AddOrUpdatePreset.
  pose proof (FindPresetIndex_le ps (name p)) as Hle.
  destruct (Nat.leb_spec (length ps) (FindPresetIndex ps (name p))) as [Hge|Hlt].
  - assert (Heq : FindPresetIndex ps (name p) = length ps) by lia.
    rewrite Heq. rewrite !FindPresetIndex_find_if in *.
    rewrite find_if_app_r by assumption. simpl.
    rewrite Text_eqb_refl, length_app. simpl.
    split; [lia|]. split; [lia|].
    rewrite lookup_app_r by lia. now rewrite Nat.sub_diag.
  - rewrite !FindPresetIndex_find_if in *.
    rewrite find_if_insert by apply Text_eqb_refl.
    rewrite length_insert. split; [reflexivity|]. split; [assumption|].
    now apply list_lookup_insert_eq.
Qed.

Lemma AddOrUpdatePreset_present (ps : CustomPresetCollection) (p : CustomPreset) :
  FindPresetIndex ps (name p) < length ps ->
  AddOrUpdatePreset ps p = <[FindPresetIndex ps (name p) := p]> ps.
Proof.
  intros H. unfold AddOrUpdatePreset.
  destruct (Nat.leb_spec (length ps) (FindPresetIndex ps (name p))); [lia|].
  reflexivity.
Qed.

Lemma AddOrUpdatePreset_absent (ps : CustomPresetCollection) (p : CustomPreset) :
  Forall (fun q => name q <> name p) ps ->
  AddOrUpdatePreset ps p = ps ++ [p].
Proof.
  intros H%FindPresetIndex_absent. unfold AddOrUpdatePreset.
  rewrite H, Nat.leb_refl. reflexivity.
Qed.

(** C8. Upserting two records of one name: the second call changes no
    size, the collection then holds the second record's fields, at the
    index the first call put the name at, and nothing else moved. *)
Theorem upsert_twice_same_name (s : State) (first second : CustomPreset) :
  name first = name second ->
  let s1 := upsert first s in
  let s2 := upsert second s1 in
  let i := FindPresetIndex (presets s1) (name first) in
  length (presets s2) = length (presets s1) /\
  i < length (presets s1) /\
  presets s1 !! i = Some first /\
  presets s2 !! i = Some second /\
  FindPresetIndex (presets s2) (name second) = i /\
  FindPreset (presets s2) (name second) = Some second /\
  (forall j, j <> i -> presets s2 !! j = presets s1 !! j).
Proof.
  intros Hname. cbn zeta. cbn [upsert presets set_presets].
  destruct (AddOrUpdatePreset_index (presets s) first) as (Hi1 & Hlt1 & Hat1).
  set (ps1 := AddOrUpdatePreset (presets s) first) in *.
  destruct (AddOrUpdatePreset_index ps1 second) as (Hi2 & Hlt2 & Hat2).
  rewrite <- Hname in Hi2, Hat2, Hlt2.
  rewrite AddOrUpdatePreset_present in * by (rewrite <- Hname; assumption).
  rewrite <- Hname in *.
  rewrite length_insert in *.
  repeat split; try assumption.
  - now rewrite Hi1.
  - unfold FindPreset. rewrite <- FindPresetIndex_find_if, Hi2.
    rewrite length_insert.
    destruct (Nat.eqb_spec (FindPresetIndex ps1 (name first)) (length ps1));
      [lia|assumption].
  - intros j Hj. now apply list_lookup_insert_ne.
Qed.

(** A store and two records named "Octane Classic": the second one ends
    up at index 1, where the first upsert appended. *)
Lemma upsert_twice_same_name_witness :
  name example_first = name example_second /\
  presets (upsert example_second (upsert example_first example_state))
    !! 1 = Some example_second.
Proof.
  split; [reflexivity|].
  pose proof (upsert_twice_same_name example_state example_first
                example_second eq_refl) as H.
  cbn zeta in H. destruct H as (_ & _ & _ & H & _). exact H.
Defined.

(** C6 (as amended). The tokens of fields joined by the delimiter are
    these fields in order, empty ones before and between delimiters
    included, except that an empty field after the last delimiter is not
    returned; [TokenizeLine] is the case of [|]. *)
Theorem TokenizeLine_joined_fields (delim : ascii) (fields : list text) :
  Forall (fun f => Fields.free delim f = true) fields ->
  Text.getlines delim (Fields.join delim fields) = Fields.visible fields /\
  (delim = "|"%char ->
   TokenizeLine (Fields.join delim fields) = Fields.visible fields).
Proof.
  intros H. rewrite getlines_split. split.
  - now apply split_join.
  - intros ->. unfold TokenizeLine. rewrite getlines_split.
    now apply split_join.
Qed.

Lemma TokenizeLine_joined_fields_witness :
  Forall (fun f => Fields.free "|" f = true) [str "a"; []; str "b"; []] /\
  TokenizeLine (str "a||b|") = [str "a"; []; str "b"].
Proof.
  assert (H : Forall (fun f => Fields.free "|" f = true)
                [str "a"; []; str "b"; []])
    by (repeat constructor).
  split; [exact H|].
  exact (proj2 (TokenizeLine_joined_fields "|" _ H) eq_refl).
Defined.

(** C6 as stated fails: the line [a|b|] ends with the delimiter and its
    trailing empty field is not among the tokens. *)
Lemma TokenizeLine_drops_trailing_empty_field :
  Fields.join "|" [str "a"; str "b"; []] = str "a|b|" /\
  TokenizeLine (str "a|b|") = [str "a"; str "b"] /\
  TokenizeLine (str "a|b|") <> [str "a"; str "b"; []].
Proof. repeat split; try reflexivity. discriminate. Qed.

(** ** What the loops keep true *)

Lemma presets_upsert_lines_ind (P : CustomPresetCollection -> Prop)
    (parse : text -> option CustomPreset) (content : text) (s : State) :
  P (presets s) ->
  (forall ps line p, P ps -> In line (Text.getlines "010" content) ->
                     parse line = Some p -> P (AddOrUpdatePreset ps p)) ->
  P (presets (upsert_lines parse content s)).
Proof.
  unfold upsert_lines.
  generalize (Text.getlines "010" content) as lines.
  intros lines; revert s; induction lines as [|line lines IH];
    intros s H0 Hstep; [exact H0|].
  simpl. apply IH.
  - destruct (parse line) as [p|] eqn:E; [|exact H0].
    apply (Hstep _ line); [assumption|now left|assumption].
  - intros ps l p HP Hin. apply Hstep; [assumption|now right].
Qed.

Lemma presets_upsert_lines (parse : text -> option CustomPreset)
    (content : text) (s : State) :
  presets (upsert_lines parse content s) =
  fold_left AddOrUpdatePreset (records parse content) (presets s).
Proof.
  unfold upsert_lines, records.
  generalize (Text.getlines "010" content) as lines.
  intros lines; revert s; induction lines as [|line lines IH]; intros s;
    [reflexivity|].
  simpl. rewrite IH. destruct (parse line); reflexivity.
Qed.

Lemma Forall_AddOrUpdatePreset (P : CustomPreset -> Prop)
    (ps : CustomPresetCollection) (p : CustomPreset) :
  Forall P ps -> P p -> Forall P (AddOrUpdatePreset ps p).
Proof.
  intros Hps Hp. unfold AddOrUpdatePreset.
  destruct (length ps <=? FindPresetIndex ps (name p)).
  - apply Forall_app. split; [assumption|now constructor].
  - now apply Forall_insert.
Qed.

Lemma presets_SaveToStorage (s : State) :
  presets (final (SaveToStorage s)) = presets s.
Proof.
  unfold SaveToStorage, EnsureStorageDirectory.
  destruct (storageDirectory s) as [|[|]]; simpl;
    try destruct (storageWritable s); reflexivity.
Qed.

(** *** Trimmed fields *)

Lemma ParseStorageLine_trimmed (line : text) (p : CustomPreset) :
  ParseStorageLine line = Some p -> trimmed_fields p = true.
Proof.
  unfold ParseStorageLine.
  destruct (Text.empty _ || Text.front_is _ _); [discriminate|].
  destruct (length _ <? 2); [discriminate|].
  intros [= <-]. unfold trimmed_fields.
  repeat match goal with
         | |- context [if ?c then _ else _] => destruct c
         end;
    cbn [name loadoutCode customization carLabel decalLabel wheelsLabel
         set_primaryColor set_accentColor set_carLabel set_decalLabel
         set_wheelsLabel set_paintFinishMatte set_paintFinishPearlescent
         default_customization];
    rewrite ?TrimWhitespace_trimmed; reflexivity.
Qed.

Lemma ParseVanillaLine_trimmed (line : text) (p : CustomPreset) :
  ParseVanillaLine line = Some p -> trimmed_fields p = true.
Proof.
  unfold ParseVanillaLine.
  destruct (Text.empty _ || Text.front_is _ _); [discriminate|].
  destruct (Text.find_last_of _ _) as [pos|]; [|discriminate].
  cbn [name loadoutCode].
  destruct (Text.empty _ || Text.empty _); [discriminate|].
  intros [= <-]. unfold trimmed_fields. cbn.
  rewrite !TrimWhitespace_trimmed. reflexivity.
Qed.

Lemma RefreshFromVanillaPresets_trimmed (s : State) :
  Forall (fun p => trimmed_fields p = true)
         (presets (RefreshFromVanillaPresets s)).
Proof.
  unfold RefreshFromVanillaPresets.
  destruct (Text.empty _); [constructor|].
  destruct (vanillaFile _); try constructor.
  apply presets_upsert_lines_ind; [constructor|].
  intros ps line p Hps _ Hp. apply Forall_AddOrUpdatePreset; [assumption|].
  now apply ParseVanillaLine_trimmed with line.
Qed.

(** C10. Whatever the files hold, each record [LoadFromStorage] or
    [RefreshFromVanillaPresets] leaves in the collection has a trimmed
    name, loadout code and car, decal and wheels labels; a stored field
    written with blanks around it comes back without them. *)
Theorem loaded_fields_are_trimmed (s : State) :
  Forall (fun p => trimmed_fields p = true)
         (presets (final (LoadFromStorage s))) /\
  Forall (fun p => trimmed_fields p = true)
         (presets (RefreshFromVanillaPresets s)) /\
  option_map name (ParseStorageLine (str "  Octane Classic  | AAAA-1111 "))
    = Some (str "Octane Classic").
Proof.
  split; [|split; [apply RefreshFromVanillaPresets_trimmed|reflexivity]].
  unfold LoadFromStorage. cbn [storageFile set_presets].
  destruct (storageFile s) as [content|].
  - cbn [final]. apply presets_upsert_lines_ind; [constructor|].
    intros ps line p Hps _ Hp. apply Forall_AddOrUpdatePreset; [assumption|].
    now apply ParseStorageLine_trimmed with line.
  - rewrite presets_SaveToStorage. apply RefreshFromVanillaPresets_trimmed.
Qed.

(** ** The vanilla line format *)

Lemma mem_blanks_whitespace (c : ascii) :
  Text.mem c Text.blanks = true -> Text.mem c Text.whitespace = true.
Proof.
  unfold Text.mem, Text.blanks, Text.whitespace. simpl.
  destruct (Ascii.eqb c " "), (Ascii.eqb c "009"); simpl; congruence.
Qed.

Lemma all_in_blanks_whitespace (w : text) :
  Strip.all_in Text.blanks w = true -> Strip.all_in Text.whitespace w = true.
Proof.
  induction w as [|c w IH]; [reflexivity|].
  cbn [Strip.all_in forallb]. intros [Hc Hw]%andb_prop.
  fold (Strip.all_in Text.whitespace w).
  now rewrite (mem_blanks_whitespace _ Hc), IH.
Qed.

Lemma find_last_of_none chars (s : text) :
  Strip.none_in chars s = true -> Text.find_last_of chars s = None.
Proof.
  induction s as [|c s IH]; [reflexivity|].
  simpl. intros [Hc Hs]%andb_prop. rewrite IH by assumption.
  apply negb_true_iff in Hc. now rewrite Hc.
Qed.

Lemma find_last_of_middle chars (pre post : text) (c : ascii) :
  Text.mem c chars = true -> Strip.none_in chars post = true ->
  Text.find_last_of chars (pre ++ c :: post) = Some (length pre).
Proof.
  intros Hc Hpost. induction pre as [|d pre IH]; simpl.
  - now rewrite find_last_of_none, Hc.
  - now rewrite IH.
Qed.

Lemma find_last_of_some chars (s : text) (pos : nat) :
  Text.find_last_of chars s = Some pos ->
  exists c, s = take pos s ++ c :: drop (S pos) s /\
            Text.mem c chars = true /\
            Strip.none_in chars (drop (S pos) s) = true.
Proof.
  revert pos; induction s as [|d s IH]; intros pos; simpl; [discriminate|].
  destruct (Text.find_last_of chars s) as [i|] eqn:E.
  - intros [= <-]. destruct (IH i eq_refl) as (c & Hs & Hc & Hn).
    exists c. simpl. split; [now rewrite <- Hs|now split].
  - destruct (Text.mem d chars) eqn:Hd; [|discriminate].
    intros [= <-]. exists d. simpl. rewrite drop_0.
    split; [reflexivity|]. split; [assumption|].
    clear IH. induction s as [|e s IH]; [reflexivity|].
    simpl in *. destruct (Text.find_last_of chars s); [discriminate|].
    destruct (Text.mem e chars); [discriminate|]. now apply IH.
Qed.

Lemma rstrip_suffix chars (s : text) :
  exists w, s = Strip.rstrip chars s ++ w /\ Strip.all_in chars w = true.
Proof.
  induction s as [|c s (w & Hs & Hw)]; [now exists []|].
  simpl. destruct (Strip.rstrip chars s) as [|d kept] eqn:E.
  - destruct (Text.mem c chars) eqn:Hc.
    + exists (c :: w). split; [simpl in *; congruence|].
      cbn [Strip.all_in forallb]. rewrite Hc. exact Hw.
    + exists w. split; [simpl in *; congruence|assumption].
  - exists w. split; [|assumption]. rewrite <- app_comm_cons. now f_equal.
Qed.

Lemma all_in_snoc chars (w : text) (c : ascii) :
  Strip.all_in chars (w ++ [c]) = Strip.all_in chars w && Text.mem c chars.
Proof.
  unfold Strip.all_in. rewrite forallb_app. simpl. now rewrite andb_true_r.
Qed.

(** The index [find_last_of] returns ends the last run, and what comes
    before it trims to what comes before the run. *)
Lemma last_run_split_find (s before after : text) :
  last_run_split s before after ->
  exists pos, Text.find_last_of Text.blanks s = Some pos /\
              TrimWhitespace (take pos s) = TrimWhitespace before /\
              drop (pos + 1) s = after.
Proof.
  intros (run & -> & Hne & Hall & Hnone & _).
  destruct run as [|c run _] using rev_ind; [congruence|].
  rewrite all_in_snoc in Hall. apply andb_prop in Hall as [Hrun Hc].
  exists (length (before ++ run)).
  replace (before ++ (run ++ [c]) ++ after)
    with ((before ++ run) ++ c :: after)
    by now rewrite <- !app_assoc.
  split; [now apply find_last_of_middle|]. split.
  - rewrite take_app_length, !TrimWhitespace_strip.
    apply strip_app_all_in. now apply all_in_blanks_whitespace.
  - rewrite Nat.add_1_r, cons_middle, app_assoc.
    apply drop_app_length'. rewrite !length_app. simpl. lia.
Qed.

Lemma find_last_of_split (s : text) (pos : nat) :
  Text.find_last_of Text.blanks s = Some pos ->
  last_run_split s (Strip.rstrip Text.blanks (take pos s)) (drop (S pos) s).
Proof.
  intros (c & Hs & Hc & Hnone)%find_last_of_some.
  destruct (rstrip_suffix Text.blanks (take pos s)) as (w & Hw & Hall).
  exists (w ++ [c]). repeat split.
  - rewrite <- !app_assoc. simpl. rewrite app_assoc, <- Hw. exact Hs.
  - now destruct w.
  - now rewrite all_in_snoc, Hall, Hc.
  - assumption.
  - apply rstrip_last.
Qed.

Lemma TrimWhitespace_rstrip_blanks (s : text) :
  TrimWhitespace (Strip.rstrip Text.blanks s) = TrimWhitespace s.
Proof.
  destruct (rstrip_suffix Text.blanks s) as (w & Hs & Hw).
  rewrite Hs at 2. rewrite !TrimWhitespace_strip.
  symmetry. apply strip_app_all_in. now apply all_in_blanks_whitespace.
Qed.

Lemma Text_empty_nil (s : text) : Text.empty s = true <-> s = [].
Proof. destruct s; simpl; split; congruence. Qed.

Lemma Text_empty_false (s : text) : Text.empty s = false <-> s <> [].
Proof. destruct s; simpl; split; congruence. Qed.




(** ** Importing the vanilla presets *)

Lemma console_upsert_lines (parse : text -> option CustomPreset)
    (content : text) (s : State) :
  console (upsert_lines parse content s) = console s.
Proof.
  unfold upsert_lines.
  generalize (Text.getlines "010" content) as lines.
  intros lines; revert s; induction lines as [|line lines IH]; intros s;
    [reflexivity|].
  simpl. rewrite IH. destruct (parse line); reflexivity.
Qed.

Lemma In_records (parse : text -> option CustomPreset) (content line : text)
    (p : CustomPreset) :
  In line (Text.getlines "010" content) -> parse line = Some p ->
  In p (records parse content).
Proof.
  intros Hin Hp. unfold records. apply list_elem_of_In, list_elem_of_omap.
  exists line. split; [now apply list_elem_of_In|assumption].
Qed.

Lemma In_AddOrUpdatePreset (ps : CustomPresetCollection) (p q : CustomPreset) :
  In q (AddOrUpdatePreset ps p) -> q = p \/ In q ps.
Proof.
  intros H.
  assert (HF : Forall (fun x => x = p \/ In x ps) (AddOrUpdatePreset ps p)).
  { apply Forall_AddOrUpdatePreset; [|now left].
    apply List.Forall_forall. intros x Hx. now right. }
  rewrite List.Forall_forall in HF. now apply HF.
Qed.

(** ** The colour token codec *)

Lemma lt_zero_asym (v : F32.float) :
  F32.lt v F32.zero = true -> F32.lt F32.zero v = false.
Proof. now destruct v as [[]|[]| |[] m e]. Qed.

Lemma lt_one_pos (v : F32.float) :
  F32.lt F32.one v = true -> F32.lt F32.zero v = true.
Proof. now destruct v as [[]|[]| |[] m e]. Qed.

Lemma le_one_not_lt (v : F32.float) :
  F32.le v F32.one = true -> F32.lt F32.one v = false.
Proof.
  destruct v as [[]|[]| |[] m e]; try reflexivity; try discriminate.
  unfold F32.le, F32.lt, SFleb, SFltb, SFcompare, F32.one.
  rewrite (Z.compare_antisym e (-23)).
  destruct (e ?= -23)%Z; try reflexivity; try discriminate.
  pose proof (Pos.compare_cont_antisym m 8388608 Eq) as H.
  cbn [CompOpp] in H. rewrite <- H.
  now destruct (Pos.compare_cont Eq m 8388608).
Qed.

Lemma eqb_refl_finite (s : bool) (m : positive) (e : Z) :
  F32.eqb (S754_finite s m e) (S754_finite s m e) = true.
Proof.
  unfold F32.eqb, SFeqb, SFcompare.
  rewrite Z.compare_refl, Pos.compare_cont_refl. now destruct s.
Qed.

(** The loop body, in terms of [decode_component]. *)
Lemma ParseColorToken_step_decode (index : nat) (color : PresetPaintColor)
    (component : text) :
  ParseColorToken_step (index, color) component =
  (S index,
   let v := decode_component (Some component) in
   match index with
   | 0 => {| r := v; g := g color; b := b color |}
   | 1 => {| r := r color; g := v; b := b color |}
   | 2 => {| r := r color; g := g color; b := v |}
   | _ => color
   end).
Proof.
  unfold ParseColorToken_step, decode_component. f_equal.
  assert (H : forall v,
             (if F32.lt F32.one (F32.max F32.zero v)
              then F32.div (F32.max F32.zero v) F32.c255
              else F32.max F32.zero v) =
             (if F32.lt F32.zero v
              then (if F32.lt F32.one v then F32.div v F32.c255 else v)
              else F32.zero)).
  { intros v. unfold F32.max. now destruct (F32.lt F32.zero v). }
  destruct (F32.stof component) as [v|].
  - now rewrite H.
  - reflexivity.
Qed.

Lemma ParseColorToken_step_idle (components : list text) (index : nat)
    (color : PresetPaintColor) :
  3 <= index ->
  snd (fold_left ParseColorToken_step components (index, color)) = color.
Proof.
  revert index color; induction components as [|c components IH];
    intros index color Hi; [reflexivity|].
  cbn [fold_left]. rewrite ParseColorToken_step_decode.
  destruct index as [|[|[|index]]]; try lia. apply IH. lia.
Qed.

Lemma ParseColorToken_decode (token : text) :
  let components := Text.getlines "," token in
  ParseColorToken token =
  {| r := decode_component (components !! 0);
     g := decode_component (components !! 1);
     b := decode_component (components !! 2) |}.
Proof.
  cbn zeta. unfold ParseColorToken.
  destruct (Text.getlines "," token) as [|c0 [|c1 [|c2 rest]]];
    cbn [fold_left]; rewrite ?ParseColorToken_step_decode; try reflexivity.
  rewrite ParseColorToken_step_idle by lia. reflexivity.
Qed.

(** C4. The token is cut at the commas; for each of the first three
    components: a component that does not parse gives 0.0 (the call
    itself always yields a colour), a negative value gives 0.0, a value
    above 1.0 gives the value divided by 255.0, a value from 0.0 to 1.0
    is kept; a component that is not there leaves 0.0. The spec's two
    sample tokens come out as it says. *)
Theorem ParseColorToken_components (token : text) (i : nat) :
  i < 3 ->
  match Text.getlines "," token !! i with
  | None => channel i (ParseColorToken token) = F32.zero
  | Some component =>
      match F32.stof component with
      | None => channel i (ParseColorToken token) = F32.zero
      | Some v =>
          (F32.lt v F32.zero = true ->
           channel i (ParseColorToken token) = F32.zero) /\
          (F32.lt F32.one v = true ->
           channel i (ParseColorToken token) = F32.div v F32.c255) /\
          (F32.le F32.zero v = true -> F32.le v F32.one = true ->
           F32.eqb (channel i (ParseColorToken token)) v = true)
      end
  end /\
  ParseColorToken (str "128,0,255") =
    {| r := F32.div (F32.of_decimal false 128 0) F32.c255;
       g := F32.zero; b := F32.one |} /\
  ParseColorToken (str "0.5,0.5,0.5") =
    {| r := F32.of_decimal false 5 (-1); g := F32.of_decimal false 5 (-1);
       b := F32.of_decimal false 5 (-1) |}.
Proof.
  intros Hi. split; [|split; vm_compute; reflexivity].
  assert (Hch : channel i (ParseColorToken token) =
                decode_component (Text.getlines "," token !! i)).
  { rewrite ParseColorToken_decode. cbn zeta.
    destruct i as [|[|[|i]]]; try lia; reflexivity. }
  rewrite Hch. clear Hch.
  destruct (Text.getlines "," token !! i) as [component|]; [|reflexivity].
  unfold decode_component.
  destruct (F32.stof component) as [v|]; [|reflexivity].
  repeat split.
  - intros H. now rewrite (lt_zero_asym _ H).
  - intros H. now rewrite (lt_one_pos _ H), H.
  - intros H0 H1. rewrite (le_one_not_lt _ H1).
    destruct v as [[]|[]| |[] m e]; try discriminate; try reflexivity.
    apply eqb_refl_finite.
Qed.

Lemma ParseColorToken_components_witness :
  1 < 3 /\
  channel 1 (ParseColorToken (str "-1,2,abc")) =
    F32.div (F32.of_decimal false 2 0) F32.c255.
Proof.
  split; [lia|].
  pose proof (ParseColorToken_components (str "-1,2,abc") 1 ltac:(lia)) as H.
  apply proj1 in H. vm_compute in H. apply H. reflexivity.
Defined.

(** C3 at a failing input: the red channel of the token [300,0,0] is
    300/255, a binary32 value above 1.0. *)
Theorem ParseColorToken_above_one :
  r (ParseColorToken (str "300,0,0")) = S754_finite false 9868951 (-23) /\
  F32.lt F32.one (r (ParseColorToken (str "300,0,0"))) = true /\
  F32.le (r (ParseColorToken (str "300,0,0"))) F32.one = false /\
  F32.to_Q (r (ParseColorToken (str "300,0,0"))) = Some (9868951 # 8388608)%Q.
Proof. repeat split. Qed.

(** ** Saving *)

(** C5 at a failing input: with the storage directory missing and not
    creatable, [SaveToStorage] does not return; the exception of
    [create_directories] leaves it, nothing is logged, and the records
    stay as they were. *)
Theorem SaveToStorage_throws_without_directory (s : State) :
  let s0 := set_storageDirectory (DirMissing false) s in
  SaveToStorage s0 = Throws s0 /\
  returned (SaveToStorage s0) = false /\
  console (final (SaveToStorage s0)) = console s /\
  presets (final (SaveToStorage s0)) = presets s.
Proof. repeat split. Qed.

(** The part of C5 the code keeps: once the directory is there or can be
    created, a storage file that cannot be opened for writing is logged,
    the call returns and the records are unchanged. *)
Lemma SaveToStorage_unwritable (s : State) :
  storageDirectory s <> DirMissing false ->
  storageWritable s = false ->
  returned (SaveToStorage s) = true /\
  presets (final (SaveToStorage s)) = presets s /\
  storageFile (final (SaveToStorage s)) = storageFile s /\
  console (final (SaveToStorage s)) =
    console s ++ [str "ExpandedPresets: Failed to open storage file for writing: "
                    ++ storageFilePath s].
Proof.
  intros Hdir Hw. unfold SaveToStorage, EnsureStorageDirectory.
  destruct (storageDirectory s) as [|[|]]; try congruence;
    cbn [storageWritable set_storageDirectory]; rewrite Hw; repeat split.
Qed.

(** ** Importing a catalog *)

Lemma FindPreset_None (ps : CustomPresetCollection) (n : text) :
  FindPreset ps n = None -> Forall (fun p => name p <> n) ps.
Proof.
  unfold FindPreset. intros H. apply FindPresetIndex_absent.
  rewrite FindPresetIndex_find_if.
  pose proof (find_if_le (fun preset => Text.eqb (name preset) n) ps) as Hle.
  destruct (Nat.eqb_spec (find_if (fun preset => Text.eqb (name preset) n) ps)
              (length ps)) as [->|Hne]; [reflexivity|].
  apply lookup_ge_None in H. lia.
Qed.

Lemma ImportFromFile_records (path : text) (overwriteExisting : bool)
    (s : State) (content : text) :
  files s path = FileContent content ->
  ImportFromFile path overwriteExisting s =
  fold_left (import_record overwriteExisting)
            (records ParseStorageLine content) (s, 0).
Proof.
  intros H. unfold ImportFromFile, records. rewrite H.
  generalize (s, 0) as acc.
  generalize (Text.getlines "010" content) as lines.
  induction lines as [|line lines IH]; intros acc; [reflexivity|].
  simpl. rewrite IH. destruct (ParseStorageLine line); reflexivity.
Qed.

Lemma FindPreset_Some (ps : CustomPresetCollection) (n : text)
    (q : CustomPreset) :
  FindPreset ps n = Some q -> In q ps /\ name q = n.
Proof.
  unfold FindPreset.
  pose proof (find_if_le (fun preset => Text.eqb (name preset) n) ps) as Hle.
  destruct (Nat.eqb_spec (find_if (fun preset => Text.eqb (name preset) n) ps)
              (length ps)) as [|Hne]; [discriminate|].
  destruct (find_if_found (fun preset => Text.eqb (name preset) n) ps)
    as (x & Hx & Hpred); [lia|].
  rewrite Hx. intros [= <-]. split.
  - apply list_elem_of_In. now apply list_elem_of_lookup_2 in Hx.
  - now apply Text_eqb_eq.
Qed.

Lemma import_keep_existing (incoming : list CustomPreset) (s : State)
    (count : nat) :
  let result := fold_left (import_record false) incoming (s, count) in
  exists added,
    presets (fst result) = presets s ++ added /\
    snd result = count + length added /\
    Forall (fun p => In p incoming) added /\
    Forall (fun p => exists q, In q (presets (fst result)) /\ name q = name p)
           incoming.
Proof.
  cbn zeta. revert s count; induction incoming as [|p incoming IH];
    intros s count.
  - exists []. rewrite app_nil_r. simpl. repeat split; [lia|constructor..].
  - cbn [fold_left import_record].
    destruct (FindPreset (presets s) (name p)) as [q|] eqn:E.
    + destruct (IH s count) as (added & H1 & H2 & H3 & H4).
      exists added. repeat split; try assumption.
      * eapply Forall_impl; [exact H3|]. intros x Hx. now right.
      * constructor; [|exact H4].
        apply FindPreset_Some in E as [Hq Hname].
        exists q. split; [|assumption]. rewrite H1. apply in_or_app. now left.
    + destruct (IH (upsert p s) (S count)) as (added & H1 & H2 & H3 & H4).
      exists (p :: added). cbn [upsert presets set_presets] in H1.
      rewrite AddOrUpdatePreset_absent in H1 by now apply FindPreset_None.
      rewrite <- app_assoc in H1. repeat split.
      * exact H1.
      * rewrite H2. simpl. lia.
      * constructor; [now left|].
        eapply Forall_impl; [exact H3|]. intros x Hx. now right.
      * constructor; [|exact H4].
        exists p. split; [|reflexivity]. rewrite H1.
        apply in_or_app. right. now left.
Qed.

Lemma import_overwrite (incoming : list CustomPreset) (s : State) (count : nat) :
  let result := fold_left (import_record true) incoming (s, count) in
  presets (fst result) = fold_left AddOrUpdatePreset incoming (presets s) /\
  snd result = count + length incoming.
Proof.
  cbn zeta. revert s count; induction incoming as [|p incoming IH];
    intros s count; [simpl; split; [reflexivity|lia]|].
  cbn [fold_left import_record].
  assert (Hstep : (match FindPreset (presets s) (name p) with
                   | Some _ => (upsert p s, S count)
                   | None => (upsert p s, S count)
                   end) = (upsert p s, S count))
    by now destruct (FindPreset (presets s) (name p)).
  rewrite Hstep. destruct (IH (upsert p s) (S count)) as [H1 H2].
  rewrite H1, H2. split; [reflexivity|simpl; lia].
Qed.

(** ** Three decimals of a unit channel *)

Lemma digits2_pos_bound (m : positive) :
  (Zpos m < 2 ^ Zpos (digits2_pos m))%Z.
Proof.
  induction m as [m IH|m IH|]; cbn [digits2_pos];
    rewrite ?Pos2Z.inj_succ, ?Z.pow_succ_r by lia; lia.
Qed.

Lemma unit_channel_finite (s : bool) (m : positive) (e : Z) :
  unit_channel (S754_finite s m e) = true ->
  s = false /\ exists k, e = Zneg k /\ (Zpos m <= 2 ^ Zpos k)%Z.
Proof.
  unfold unit_channel. intros [[Hvalid Hpos]%andb_prop Hle]%andb_prop.
  destruct s; [discriminate|]. split; [reflexivity|].
  unfold valid_binary, bounded, canonical_mantissa, fexp, emin in Hvalid.
  apply andb_prop in Hvalid as [Hcanon _]. apply Z.eqb_eq in Hcanon.
  pose proof (digits2_pos_bound m) as Hdigits.
  assert (Hd : (Zpos (digits2_pos m) <= 24)%Z)
    by (unfold F32.prec, F32.emax in Hcanon; lia).
  assert (H24 : (2 ^ Zpos (digits2_pos m) <= 2 ^ 24)%Z)
    by (apply Z.pow_le_mono_r; lia).
  unfold F32.le, SFleb, SFcompare, F32.one in Hle.
  destruct (Z.compare_spec e (-23)) as [He|He|He]; [| |discriminate].
  - subst e. exists 23%positive. split; [reflexivity|].
    assert (Hm : (m <= 8388608)%positive).
    { unfold Pos.le, Pos.compare.
      now destruct (Pos.compare_cont Eq m 8388608). }
    apply Pos2Z.pos_le_pos in Hm. exact Hm.
  - destruct e as [|k|k]; try lia. exists k. split; [reflexivity|].
    assert (H : (2 ^ 24 <= 2 ^ Zpos k)%Z) by (apply Z.pow_le_mono_r; lia).
    lia.
Qed.

Lemma round_half_even_bounds (num den : Z) :
  (0 < den)%Z -> (0 <= num)%Z ->
  let n := F32.round_half_even num den in
  (0 <= n /\ - den <= 2 * num - 2 * n * den <= den)%Z.
Proof.
  intros Hden Hnum. cbn zeta. unfold F32.round_half_even.
  pose proof (Z.div_mod num den ltac:(lia)) as Hdm.
  pose proof (Z.mod_pos_bound num den Hden) as Hmod.
  pose proof (Z.div_pos num den Hnum Hden) as Hq.
  destruct (Z.compare_spec (2 * (num mod den)) den) as [H|H|H];
    try destruct (Z.even (num / den)); nia.
Qed.

(** A unit channel is written as the numeral of a whole number of
    thousandths, at most 1000 and at most half a thousandth away. *)
Lemma put_fixed3_unit (x : F32.float) :
  unit_channel x = true ->
  exists neg n q,
    F32.put_fixed3 x = F32.fixed3 neg n /\
    (neg = false /\ (0 <= n <= 1000)%Z \/ neg = true /\ n = 0%Z) /\
    F32.to_Q x = Some q /\
    (Qabs (q - (n # 1000)) <= 1 # 2000)%Q.
Proof.
  intros Hx. destruct x as [s|s| |s m e]; try discriminate.
  - exists s, 0%Z, 0%Q. repeat split; [destruct s; auto with zarith|].
    now vm_compute.
  - destruct s; discriminate.
  - destruct (unit_channel_finite _ _ _ Hx) as (-> & k & -> & Hm).
    assert (Hden : (0 < 2 ^ Zpos k)%Z) by (apply Z.pow_pos_nonneg; lia).
    pose proof (round_half_even_bounds (Zpos m * 1000) (2 ^ Zpos k) Hden
                  ltac:(lia)) as Hround.
    cbn zeta in Hround.
    assert (Heq : F32.thousandths m (Zneg k) =
                  F32.round_half_even (Zpos m * 1000) (2 ^ Zpos k)).
    { unfold F32.thousandths. change (- Zneg k)%Z with (Zpos k).
      rewrite Z.max_r by lia. rewrite Z.max_l by lia.
      now rewrite Z.pow_0_r, Z.mul_1_r. }
    set (n := F32.round_half_even (Zpos m * 1000) (2 ^ Zpos k)) in *.
    exists false, n, (Zpos m # 2 ^ k)%Q. repeat split.
    + cbn [F32.put_fixed3]. now rewrite Heq.
    + left. split; [reflexivity|]. nia.
    + apply Qabs_Qle_condition.
      unfold Qle, Qminus, Qplus, Qopp; cbn [Qnum Qden].
      rewrite !Pos2Z.inj_mul, Pos2Z.inj_pow. split; nia.
Qed.

Lemma numeral_table :
  forallb (fun i => numeral_ok false (Z.of_nat i)) (seq 0 1001) = true /\
  numeral_ok true 0 = true.
Proof. split; vm_compute; reflexivity. Qed.

Lemma numeral_ok_unit (neg : bool) (n : Z) :
  neg = false /\ (0 <= n <= 1000)%Z \/ neg = true /\ n = 0%Z ->
  numeral_ok neg n = true.
Proof.
  destruct numeral_table as [Htable Hzero].
  intros [[-> Hn]|[-> ->]]; [|exact Hzero].
  rewrite forallb_forall in Htable.
  rewrite <- (Z2Nat.id n) by lia. apply Htable, in_seq. lia.
Qed.

(** What a unit channel becomes when it is written and read back. *)
Lemma put_fixed3_decode (x : F32.float) :
  unit_channel x = true ->
  let t := F32.put_fixed3 x in
  t <> [] /\ Fields.free "," t = true /\ Fields.free "|" t = true /\
  Fields.free "010" t = true /\
  close x (decode_component (Some t)).
Proof.
  intros (neg & n & q & -> & Hn & Hq & Hclose)%put_fixed3_unit.
  cbn zeta. pose proof (numeral_ok_unit neg n Hn) as Hok.
  unfold numeral_ok in Hok. cbn zeta in Hok.
  apply andb_prop in Hok as [[[[He Hc]%andb_prop Hb]%andb_prop Hl]%andb_prop Hv].
  repeat split; try assumption.
  - apply negb_true_iff, Text_empty_false in He. exact He.
  - unfold close. rewrite Hq.
    destruct (F32.to_Q (decode_component (Some (F32.fixed3 neg n))))
      as [y|]; [|discriminate].
    apply Qle_bool_iff in Hv.
    apply Qabs_Qle_condition in Hclose, Hv.
    apply Qabs_Qle_condition.
    destruct Hclose, Hv. split; lra.
Qed.

(** ** A save followed by a load *)

Lemma free_app delim (s t : text) :
  Fields.free delim (s ++ t) = Fields.free delim s && Fields.free delim t.
Proof. apply forallb_app. Qed.

Lemma free_cons delim (c : ascii) (s : text) :
  Fields.free delim (c :: s) = negb (Ascii.eqb c delim) && Fields.free delim s.
Proof. reflexivity. Qed.

Lemma SerializeColorToken_unit (c : PresetPaintColor) :
  unit_color c = true ->
  Fields.free "|" (SerializeColorToken c) = true /\
  Fields.free "010" (SerializeColorToken c) = true /\
  close_color c (ParseColorToken (SerializeColorToken c)).
Proof.
  unfold unit_color. intros [[Hr Hg]%andb_prop Hb]%andb_prop.
  apply put_fixed3_decode in Hr as (Hr0 & Hr1 & Hr2 & Hr3 & Hr4).
  apply put_fixed3_decode in Hg as (Hg0 & Hg1 & Hg2 & Hg3 & Hg4).
  apply put_fixed3_decode in Hb as (Hb0 & Hb1 & Hb2 & Hb3 & Hb4).
  unfold SerializeColorToken. cbn [app].
  split; [|split].
  - repeat (rewrite free_app || rewrite free_cons).
    now rewrite Hr2, Hg2, Hb2.
  - repeat (rewrite free_app || rewrite free_cons).
    now rewrite Hr3, Hg3, Hb3.
  - rewrite ParseColorToken_decode. cbn zeta. rewrite getlines_split.
    rewrite !split_field_delim by assumption.
    destruct (F32.put_fixed3 (b c)) as [|ch t] eqn:E; [congruence|].
    rewrite split_field_end by assumption.
    repeat split; assumption.
Qed.

Lemma StorageLine_body_newline (p : CustomPreset) :
  StorageLine p = StorageLine_body p ++ ["010"%char].
Proof.
  unfold StorageLine, StorageLine_body. cbn zeta.
  repeat (rewrite <- app_assoc || rewrite <- app_comm_cons).
  reflexivity.
Qed.

Lemma plain_parts (s : text) :
  plain s = true ->
  Fields.free "|" s = true /\ Fields.free "010" s = true /\
  TrimWhitespace s = s /\ Strip.outside Text.whitespace (head s) = true.
Proof.
  unfold plain. intros [[H1 H2]%andb_prop H3]%andb_prop.
  repeat split; try assumption; [now apply TrimWhitespace_id|].
  unfold Strip.trimmed in H3. now apply andb_prop in H3 as [H3 _].
Qed.

Lemma last_cons_app_cons (c d : ascii) (s t : text) :
  last (c :: s ++ d :: t) = last (d :: t).
Proof. apply (last_app_cons (c :: s)). Qed.

(** The written line of a storable record parses back to that record,
    colours reread. *)
Lemma ParseStorageLine_body (p : CustomPreset) :
  storable p = true ->
  Fields.free "010" (StorageLine_body p) = true /\
  ParseStorageLine (StorageLine_body p) = Some (reread p).
Proof.
  unfold storable.
  intros [[[[[[[[[Hn0 Hn1]%andb_prop Hc0]%andb_prop Hn]%andb_prop
    Hc]%andb_prop Hcar]%andb_prop Hdecal]%andb_prop Hwheels]%andb_prop
    Hprimary]%andb_prop Haccent]%andb_prop.
  apply plain_parts in Hn as (Hn2 & Hn3 & Hn4 & Hn5).
  apply plain_parts in Hc as (Hc2 & Hc3 & Hc4 & _).
  apply plain_parts in Hcar as (Hcar2 & Hcar3 & Hcar4 & _).
  apply plain_parts in Hdecal as (Hdecal2 & Hdecal3 & Hdecal4 & _).
  apply plain_parts in Hwheels as (Hwheels2 & Hwheels3 & Hwheels4 & _).
  apply SerializeColorToken_unit in Hprimary as (Hp2 & Hp3 & _).
  apply SerializeColorToken_unit in Haccent as (Ha2 & Ha3 & _).
  apply negb_true_iff in Hn0, Hn1, Hc0.
  destruct p as [n code [primary accent car decal wheels matte pearl]].
  cbn [name loadoutCode customization primaryColor accentColor carLabel
       decalLabel wheelsLabel paintFinishMatte paintFinishPearlescent] in *.
  set (f1 := if matte then "1"%char else "0"%char).
  set (f2 := if pearl then "1"%char else "0"%char).
  set (line := StorageLine_body _).
  assert (Hline : line =
    n ++ "|"%char :: code ++ "|"%char ::
    SerializeColorToken primary ++ "|"%char ::
    SerializeColorToken accent ++ "|"%char ::
    car ++ "|"%char :: decal ++ "|"%char :: wheels ++ "|"%char ::
    [f1; "|"%char; f2]) by reflexivity.
  assert (Hf2 : Text.mem f2 Text.whitespace = false)
    by (subst f2; now destruct pearl).
  split.
  { rewrite Hline. repeat (rewrite free_app || rewrite free_cons).
    rewrite Hn3, Hc3, Hp3, Ha3, Hcar3, Hdecal3, Hwheels3.
    subst f1 f2. now destruct matte, pearl. }
  assert (Htrim : TrimWhitespace line = line).
  { apply TrimWhitespace_id. unfold Strip.trimmed. apply andb_true_intro. split.
    - rewrite Hline. destruct n as [|ch n]; [discriminate|]. exact Hn5.
    - assert (Hlast : last line = Some f2).
      { rewrite Hline, last_app_cons. now rewrite !last_cons_app_cons. }
      rewrite Hlast. cbn [Strip.outside]. now rewrite Hf2. }
  assert (Htokens : TokenizeLine line =
    [n; code; SerializeColorToken primary; SerializeColorToken accent;
     car; decal; wheels; [f1]; [f2]]).
  { unfold TokenizeLine. rewrite getlines_split, Hline.
    rewrite !split_field_delim by assumption.
    subst f1 f2. now destruct matte, pearl. }
  unfold ParseStorageLine. rewrite Htrim, Htokens.
  assert (Hempty : Text.empty line = false)
    by (rewrite Hline; now destruct n).
  assert (Hfront : Text.front_is "#" line = false)
    by (rewrite Hline; now destruct n).
  rewrite Hempty, Hfront.
  cbn [orb length Nat.ltb Nat.leb nth].
  rewrite Hn4, Hc4, Hcar4, Hdecal4, Hwheels4.
  unfold reread, set_paintFinishPearlescent, set_paintFinishMatte,
    set_wheelsLabel, set_decalLabel, set_carLabel, set_accentColor,
    set_primaryColor.
  cbn [name loadoutCode customization primaryColor accentColor carLabel
       decalLabel wheelsLabel paintFinishMatte paintFinishPearlescent].
  subst f1 f2. now destruct matte, pearl.
Qed.

Lemma getlines_saved (ps : CustomPresetCollection) :
  Forall (fun p => Fields.free "010" (StorageLine_body p) = true) ps ->
  Text.getlines "010" (concat (map StorageLine ps)) = map StorageLine_body ps.
Proof.
  rewrite getlines_split.
  induction 1 as [|p ps Hp Hps IH]; [reflexivity|].
  cbn [map concat]. rewrite StorageLine_body_newline, <- app_assoc.
  cbn [app]. rewrite split_field_delim by assumption. now rewrite IH.
Qed.

Lemma records_saved (ps : CustomPresetCollection) :
  Forall (fun p => storable p = true) ps ->
  records ParseStorageLine (concat (map StorageLine ps)) = map reread ps.
Proof.
  intros Hps. unfold records. rewrite getlines_saved.
  - induction Hps as [|p ps Hp Hps IH]; [reflexivity|].
    cbn [map omap list_omap].
    destruct (ParseStorageLine_body p Hp) as [_ ->].
    fold (omap ParseStorageLine (map StorageLine_body ps)).
    now rewrite IH.
  - eapply Forall_impl; [exact Hps|]. intros p Hp.
    now destruct (ParseStorageLine_body p Hp).
Qed.

Lemma fold_AddOrUpdatePreset_distinct (qs acc : CustomPresetCollection) :
  List.NoDup (map name (acc ++ qs)) ->
  fold_left AddOrUpdatePreset qs acc = acc ++ qs.
Proof.
  revert acc; induction qs as [|q qs IH]; intros acc Hnd.
  - now rewrite app_nil_r.
  - cbn [fold_left]. rewrite AddOrUpdatePreset_absent.
    + rewrite IH; rewrite <- app_assoc; [reflexivity|exact Hnd].
    + rewrite map_app in Hnd. cbn [map] in Hnd.
      apply List.NoDup_remove_2 in Hnd.
      apply List.Forall_forall. intros x Hx Heq. apply Hnd.
      apply in_or_app. left. rewrite <- Heq. now apply in_map.
Qed.

Lemma same_record_reread (p : CustomPreset) :
  storable p = true -> same_record p (reread p).
Proof.
  unfold storable.
  intros [[_ Hprimary]%andb_prop Haccent]%andb_prop.
  apply SerializeColorToken_unit in Hprimary as (_ & _ & Hprimary).
  apply SerializeColorToken_unit in Haccent as (_ & _ & Haccent).
  unfold same_record, reread.
  cbn [name loadoutCode customization primaryColor accentColor carLabel
       decalLabel wheelsLabel paintFinishMatte paintFinishPearlescent].
  split; [reflexivity|]. split; [reflexivity|].
  split; [exact Hprimary|]. split; [exact Haccent|].
  repeat split.
Qed.

Lemma same_record_names (ps qs : CustomPresetCollection) :
  Forall2 same_record ps qs -> map name ps = map name qs.
Proof.
  induction 1 as [|p q ps qs [Hname _] _ IH]; [reflexivity|].
  cbn. now rewrite Hname, IH.
Qed.

(** C1 (as amended). For a collection of storable records with pairwise
    different names, on a disk where the storage file can be written:
    [SaveToStorage] returns, [LoadFromStorage] then returns, and the
    collection it leaves has the same records in the same order, each
    colour channel within 0.000501 of the saved one. *)
Theorem save_then_load (s : State) :
  storageDirectory s <> DirMissing false ->
  storageWritable s = true ->
  List.NoDup (map name (presets s)) ->
  Forall (fun p => storable p = true) (presets s) ->
  exists s1 s2,
    SaveToStorage s = Returns s1 /\
    presets s1 = presets s /\
    LoadFromStorage s1 = Returns s2 /\
    presets s2 = map reread (presets s) /\
    Forall2 same_record (presets s) (presets s2).
Proof.
  intros Hdir Hwritable Hnames Hstorable.
  assert (Hsave : exists s1,
             SaveToStorage s = Returns s1 /\ presets s1 = presets s /\
             storageFile s1 = Some (concat (map StorageLine (presets s)))).
  { unfold SaveToStorage, EnsureStorageDirectory.
    destruct (storageDirectory s) as [|[|]]; try congruence;
      cbn [storageWritable set_storageDirectory]; rewrite Hwritable;
      eexists; repeat split. }
  destruct Hsave as (s1 & Hsave & Hpresets & Hfile).
  exists s1. eexists. split; [exact Hsave|]. split; [exact Hpresets|].
  unfold LoadFromStorage. cbn [storageFile set_presets]. rewrite Hfile.
  split; [reflexivity|].
  rewrite presets_upsert_lines. cbn [presets set_presets].
  rewrite records_saved by assumption.
  rewrite fold_AddOrUpdatePreset_distinct.
  - cbn [app]. split; [reflexivity|].
    clear - Hstorable. induction Hstorable as [|p ps Hp Hps IH];
      cbn [map]; constructor; [now apply same_record_reread|exact IH].
  - cbn [app]. rewrite map_map.
    rewrite (map_ext (fun p => name (reread p)) name) by reflexivity.
    exact Hnames.
Qed.

Lemma save_then_load_witness :
  storageDirectory example_store <> DirMissing false /\
  storageWritable example_store = true /\
  List.NoDup (map name (presets example_store)) /\
  Forall (fun p => storable p = true) (presets example_store) /\
  exists s1 s2,
    SaveToStorage example_store = Returns s1 /\
    presets s1 = presets example_store /\
    LoadFromStorage s1 = Returns s2 /\
    presets s2 = map reread (presets example_store) /\
    Forall2 same_record (presets example_store) (presets s2).
Proof.
  assert (H1 : storageDirectory example_store <> DirMissing false)
    by discriminate.
  assert (H2 : storageWritable example_store = true) by reflexivity.
  assert (H3 : List.NoDup (map name (presets example_store))).
  { repeat constructor; cbv; intuition discriminate. }
  assert (H4 : Forall (fun p => storable p = true) (presets example_store)).
  { repeat constructor; vm_compute; reflexivity. }
  repeat split; try assumption.
  exact (save_then_load example_store H1 H2 H3 H4).
Defined.

(** C1 as stated fails: a name with a leading space is not empty, the
    record's channels are unit, and the load gives the name back
    without the space. *)
Lemma roundtrip_claim_fails :
  map name (presets (final (LoadFromStorage
                              (final (SaveToStorage example_padded_state)))))
    = [str "Octane Classic"] /\
  ~ roundtrip_claim example_padded_state.
Proof.
  split; [vm_compute; reflexivity|].
  intros H.
  assert (Hpre : Forall (fun p => name p <> [] /\ loadoutCode p <> [] /\
                   unit_color (primaryColor (customization p)) = true /\
                   unit_color (accentColor (customization p)) = true)
                  (presets example_padded_state)).
  { repeat constructor; try discriminate; vm_compute; reflexivity. }
  apply H, same_record_names in Hpre. vm_compute in Hpre. discriminate.
Qed.

(** * Further properties *)

(** ** Trimming and tokenizing *)

Lemma strip_nil_all_in chars (s : text) :
  Strip.strip chars s = [] <-> Strip.all_in chars s = true.
Proof.
  induction s as [|c s IH]; [split; reflexivity|].
  cbn [Strip.strip Strip.all_in forallb].
  fold (Strip.all_in chars s).
  destruct (Text.mem c chars); [exact IH|].
  split; discriminate.
Qed.

Lemma strip_parts chars (s : text) :
  exists before after,
    s = before ++ Strip.strip chars s ++ after /\
    Strip.all_in chars before = true /\ Strip.all_in chars after = true.
Proof.
  induction s as [|c s (before & after & Hs & Hb & Ha)].
  - now exists [], [].
  - cbn [Strip.strip]. destruct (Text.mem c chars) eqn:Hc.
    + exists (c :: before), after. repeat split; try assumption.
      * cbn [app]. now rewrite <- Hs.
      * cbn [Strip.all_in forallb]. rewrite Hc. exact Hb.
    + destruct (rstrip_suffix chars s) as (w & Hw & Hall).
      exists [], w. repeat split; try assumption.
      cbn [app]. now rewrite <- Hw.
Qed.

(** X1. [TrimWhitespace] is idempotent, its result is trimmed, and the
    result is empty exactly for a text made of spaces, tabs, carriage
    returns and newlines only. *)
Theorem TrimWhitespace_idempotent (s : text) :
  TrimWhitespace (TrimWhitespace s) = TrimWhitespace s /\
  Strip.trimmed (TrimWhitespace s) = true /\
  (TrimWhitespace s = [] <-> Strip.all_in Text.whitespace s = true).
Proof.
  split; [|split].
  - apply TrimWhitespace_id, TrimWhitespace_trimmed.
  - apply TrimWhitespace_trimmed.
  - rewrite TrimWhitespace_strip. apply strip_nil_all_in.
Qed.

(** X2. [TrimWhitespace] cuts whitespace off the two ends and nothing
    else: the text is some whitespace, the result, and some whitespace
    again, so what lies between the first and the last other character
    is kept as it is. *)
Theorem TrimWhitespace_keeps_inside (s : text) :
  exists before after,
    s = before ++ TrimWhitespace s ++ after /\
    Strip.all_in Text.whitespace before = true /\
    Strip.all_in Text.whitespace after = true.
Proof. rewrite TrimWhitespace_strip. apply strip_parts. Qed.

Lemma split_nil delim (s : text) : Fields.split delim s = [] <-> s = [].
Proof.
  destruct s as [|c s]; [split; reflexivity|].
  split; [|discriminate]. cbn [Fields.split].
  destruct (Ascii.eqb c delim); [discriminate|].
  destruct (Fields.split delim s); discriminate.
Qed.

Lemma join_cons_cons delim (c : ascii) (f : text) (fields : list text) :
  Fields.join delim ((c :: f) :: fields) = c :: Fields.join delim (f :: fields).
Proof. destruct fields; reflexivity. Qed.

Lemma ends_with_cons delim (c d : ascii) (s : text) :
  ends_with delim (c :: d :: s) = ends_with delim (d :: s).
Proof. unfold ends_with. now rewrite last_cons_cons. Qed.

Lemma split_free_join delim (s : text) :
  Forall (fun f => Fields.free delim f = true) (Fields.split delim s) /\
  s = Fields.join delim (Fields.split delim s) ++
      (if ends_with delim s then [delim] else []).
Proof.
  induction s as [|c s [IHfree IHjoin]]; [split; [constructor|reflexivity]|].
  cbn [Fields.split]. destruct (Ascii.eqb c delim) eqn:Hc.
  - apply Ascii.eqb_eq in Hc. subst c. split; [now constructor|].
    destruct s as [|d s].
    + cbn. now rewrite Ascii.eqb_refl.
    + rewrite ends_with_cons.
      destruct (Fields.split delim (d :: s)) as [|f fields] eqn:E.
      * apply split_nil in E. discriminate.
      * change (Fields.join delim ([] :: f :: fields))
          with (delim :: Fields.join delim (f :: fields)).
        cbn [app]. now rewrite <- IHjoin.
  - destruct s as [|d s].
    + cbn. rewrite Hc. cbn. split; [|reflexivity].
      repeat constructor. cbn. now rewrite Hc.
    + rewrite ends_with_cons.
      destruct (Fields.split delim (d :: s)) as [|f fields] eqn:E.
      * apply split_nil in E. discriminate.
      * inversion IHfree as [|? ? Hf Hfields]; subst. split.
        -- constructor; [|assumption]. cbn. now rewrite Hc.
        -- rewrite join_cons_cons. cbn [app]. now rewrite <- IHjoin.
Qed.

(** X3. No token of [TokenizeLine] contains a bar, and putting bars
    between the tokens gives the line back, up to the one bar a line may
    end with. *)
Theorem TokenizeLine_join (line : text) :
  Forall (fun token => Fields.free "|" token = true) (TokenizeLine line) /\
  line = Fields.join "|" (TokenizeLine line) ++
         (if ends_with "|" line then ["|"%char] else []).
Proof.
  unfold TokenizeLine. rewrite getlines_split. apply split_free_join.
Qed.

(** ** Looking up, adding and removing *)

Lemma find_if_before {A} (pred : A -> bool) (l : list A) (j : nat) (x : A) :
  j < find_if pred l -> l !! j = Some x -> pred x = false.
Proof.
  revert j; induction l as [|y l IH]; intros j; simpl; [lia|].
  destruct (pred y) eqn:Hy; [lia|].
  destruct j as [|j]; simpl.
  - intros _ [= <-]. exact Hy.
  - intros Hj. apply IH. lia.
Qed.

Lemma lookup_FindPresetIndex_name (ps : CustomPresetCollection) (n : text)
    (q : CustomPreset) :
  ps !! FindPresetIndex ps n = Some q -> name q = n.
Proof.
  rewrite FindPresetIndex_find_if. intros Hq.
  apply lookup_lt_Some in Hq as Hlt.
  destruct (find_if_found _ ps Hlt) as (x & Hx & Hpred).
  rewrite Hq in Hx. injection Hx as <-. now apply Text_eqb_eq.
Qed.

(** X4. [FindPreset] and [FindPresetIndex] agree: a record is found
    exactly when the index is inside the collection, it is then the
    record at that index, it bears the name, and no record before it
    does; otherwise the index is the size and no record bears the
    name. *)
Theorem FindPreset_FindPresetIndex (ps : CustomPresetCollection) (n : text) :
  match FindPreset ps n with
  | Some p =>
      FindPresetIndex ps n < length ps /\
      ps !! FindPresetIndex ps n = Some p /\
      name p = n /\
      (forall j q, j < FindPresetIndex ps n -> ps !! j = Some q -> name q <> n)
  | None =>
      FindPresetIndex ps n = length ps /\
      Forall (fun q => name q <> n) ps
  end.
Proof.
  rewrite FindPresetIndex_find_if. unfold FindPreset.
  set (pred := fun preset => Text.eqb (name preset) n).
  pose proof (find_if_le pred ps) as Hle.
  destruct (Nat.eqb_spec (find_if pred ps) (length ps)) as [Heq|Hne].
  - split; [assumption|].
    apply find_if_none in Heq. eapply Forall_impl; [exact Heq|].
    intros q Hq. now apply Text_eqb_neq.
  - destruct (find_if_found pred ps) as (x & Hx & Hpred); [lia|].
    rewrite Hx. repeat split; try lia.
    + now apply Text_eqb_eq.
    + intros j q Hj Hq. apply Text_eqb_neq.
      exact (find_if_before pred ps j q Hj Hq).
Qed.

Lemma find_if_insert_other {A} (pred : A -> bool) (l : list A) (i : nat)
    (x y : A) :
  l !! i = Some y -> pred y = false -> pred x = false ->
  find_if pred (<[i := x]> l) = find_if pred l.
Proof.
  revert i; induction l as [|z l IH]; intros i; [reflexivity|].
  destruct i as [|i]; simpl.
  - intros [= ->] Hy Hx. now rewrite Hy, Hx.
  - intros Hl Hy Hx. destruct (pred z); [reflexivity|].
    f_equal. now apply IH.
Qed.

Lemma FindPreset_found (ps : CustomPresetCollection) (n : text) (i : nat)
    (p : CustomPreset) :
  FindPresetIndex ps n = i -> ps !! i = Some p -> FindPreset ps n = Some p.
Proof.
  rewrite FindPresetIndex_find_if. unfold FindPreset. intros -> Hp.
  apply lookup_lt_Some in Hp as Hlt.
  destruct (Nat.eqb_spec i (length ps)); [lia|assumption].
Qed.

Lemma FindPreset_app_other (ps : CustomPresetCollection) (p : CustomPreset)
    (n : text) :
  name p <> n -> FindPreset (ps ++ [p]) n = FindPreset ps n.
Proof.
  intros Hn. unfold FindPreset.
  set (pred := fun preset => Text.eqb (name preset) n).
  assert (Hp : pred p = false) by now apply Text_eqb_neq.
  pose proof (find_if_le pred ps) as Hle.
  destruct (Nat.eqb_spec (find_if pred ps) (length ps)) as [Heq|Hne].
  - rewrite find_if_app_r by assumption. simpl. rewrite Hp.
    rewrite length_app. simpl.
    destruct (Nat.eqb_spec (length ps + 1) (length ps + 1)); [reflexivity|lia].
  - assert (Hfind : find_if pred (ps ++ [p]) = find_if pred ps).
    { clear - Hne. induction ps as [|x ps IH]; simpl in *; [lia|].
      destruct (pred x); [reflexivity|]. f_equal. apply IH. lia. }
    rewrite Hfind, length_app. simpl.
    destruct (Nat.eqb_spec (find_if pred ps) (length ps + 1)); [lia|].
    apply lookup_app_l. lia.
Qed.

Lemma FindPreset_insert_other (ps : CustomPresetCollection) (p : CustomPreset)
    (n : text) :
  name p <> n -> FindPresetIndex ps (name p) < length ps ->
  FindPreset (<[FindPresetIndex ps (name p) := p]> ps) n = FindPreset ps n.
Proof.
  intros Hn Hlt.
  set (i := FindPresetIndex ps (name p)) in *.
  destruct (lookup_lt_is_Some_2 ps i Hlt) as [old Hold].
  assert (Hname : name old = name p)
    by exact (lookup_FindPresetIndex_name ps (name p) old Hold).
  unfold FindPreset.
  set (pred := fun preset => Text.eqb (name preset) n).
  rewrite (find_if_insert_other pred ps i p old Hold).
  - rewrite length_insert.
    destruct (Nat.eqb_spec (find_if pred ps) (length ps)); [reflexivity|].
    rewrite list_lookup_insert_ne; [reflexivity|].
    intros Heq.
    destruct (find_if_found pred ps) as (x & Hx & Hpred);
      [pose proof (find_if_le pred ps); lia|].
    rewrite <- Heq, Hold in Hx. injection Hx as <-.
    apply Text_eqb_eq in Hpred. congruence.
  - apply Text_eqb_neq. congruence.
  - now apply Text_eqb_neq.
Qed.

Lemma FindPreset_find (ps : CustomPresetCollection) (n : text) :
  FindPreset ps n = List.find (fun preset => Text.eqb (name preset) n) ps.
Proof.
  unfold FindPreset. induction ps as [|x ps IH]; [reflexivity|].
  cbn [find_if List.find length].
  destruct (Text.eqb (name x) n); [reflexivity|].
  cbn [Nat.eqb lookup list_lookup]. exact IH.
Qed.

Lemma find_delete_other {A} (pred : A -> bool) (l : list A) (i : nat) (x : A) :
  l !! i = Some x -> pred x = false ->
  List.find pred (delete i l) = List.find pred l.
Proof.
  revert i; induction l as [|y l IH]; intros i; [discriminate|].
  destruct i as [|i]; simpl.
  - intros [= ->] Hx. now rewrite Hx.
  - intros Hl Hx. destruct (pred y); [reflexivity|]. now apply IH.
Qed.

Lemma find_none_Forall {A} (pred : A -> bool) (l : list A) :
  List.find pred l = None <-> Forall (fun x => pred x = false) l.
Proof.
  induction l as [|x l IH]; simpl; [split; [constructor|reflexivity]|].
  destruct (pred x) eqn:Hx.
  - split; [discriminate|]. intros H. inversion H; congruence.
  - rewrite IH. split; [now constructor|]. intros H. now inversion H.
Qed.

Lemma names_insert_same (ps : CustomPresetCollection) (p : CustomPreset) :
  FindPresetIndex ps (name p) < length ps ->
  map name (<[FindPresetIndex ps (name p) := p]> ps) = map name ps.
Proof.
  intros Hlt.
  destruct (lookup_lt_is_Some_2 ps _ Hlt) as [old Hold].
  pose proof (lookup_FindPresetIndex_name ps (name p) old Hold) as Hname.
  change (map name) with (fmap (M := list) name).
  rewrite list_fmap_insert. apply list_insert_id.
  rewrite list_lookup_fmap, Hold. cbn. now rewrite Hname.
Qed.

Lemma names_AddOrUpdatePreset (ps : CustomPresetCollection) (p : CustomPreset) :
  map name (AddOrUpdatePreset ps p) =
  if FindPresetIndex ps (name p) <? length ps
  then map name ps
  else map name ps ++ [name p].
Proof.
  pose proof (FindPresetIndex_le ps (name p)) as Hle.
  destruct (Nat.ltb_spec (FindPresetIndex ps (name p)) (length ps)) as [Hlt|Hge].
  - rewrite AddOrUpdatePreset_present by assumption.
    now apply names_insert_same.
  - rewrite AddOrUpdatePreset_absent.
    + now rewrite map_app.
    + apply FindPresetIndex_absent. lia.
Qed.

Lemma NoDup_snoc_fresh {A} (l : list A) (x : A) :
  List.NoDup l -> ~ In x l -> List.NoDup (l ++ [x]).
Proof.
  induction 1 as [|y l Hy Hl IH]; intros Hx; simpl.
  - constructor; [intros []|constructor].
  - constructor.
    + intros [Hin|[->|[]]]%in_app_or; [now apply Hy|]. apply Hx. now left.
    + apply IH. intros Hin. apply Hx. now right.
Qed.

Lemma NoDup_names_AddOrUpdatePreset (ps : CustomPresetCollection)
    (p : CustomPreset) :
  List.NoDup (map name ps) -> List.NoDup (map name (AddOrUpdatePreset ps p)).
Proof.
  intros Hnd. rewrite names_AddOrUpdatePreset.
  pose proof (FindPresetIndex_le ps (name p)) as Hle.
  destruct (Nat.ltb_spec (FindPresetIndex ps (name p)) (length ps)) as [Hlt|Hge];
    [assumption|].
  assert (Habsent : Forall (fun q => name q <> name p) ps)
    by (apply FindPresetIndex_absent; lia).
  apply NoDup_snoc_fresh; [assumption|].
  intros (q & Hq & Hin)%in_map_iff.
  rewrite List.Forall_forall in Habsent. now apply (Habsent q).
Qed.

(** X5. After [AddOrUpdatePreset] the record's name finds the record
    just given, and every other name finds what it found before. *)
Theorem AddOrUpdatePreset_lookup (ps : CustomPresetCollection)
    (p : CustomPreset) :
  FindPreset (AddOrUpdatePreset ps p) (name p) = Some p /\
  (forall n, n <> name p ->
     FindPreset (AddOrUpdatePreset ps p) n = FindPreset ps n).
Proof.
  split.
  - destruct (AddOrUpdatePreset_index ps p) as (Hi & Hlt & Hat).
    rewrite <- Hi in Hat. exact (FindPreset_found _ _ _ _ eq_refl Hat).
  - intros n Hn.
    pose proof (FindPresetIndex_le ps (name p)) as Hle.
    destruct (Nat.ltb_spec (FindPresetIndex ps (name p)) (length ps))
      as [Hlt|Hge].
    + rewrite AddOrUpdatePreset_present by assumption.
      apply FindPreset_insert_other; [congruence|assumption].
    + rewrite AddOrUpdatePreset_absent
        by (apply FindPresetIndex_absent; lia).
      apply FindPreset_app_other. congruence.
Qed.

(** X6. [AddOrUpdatePreset] changes the sequence of names only by
    appending a name that was not there: the size grows by one exactly
    then, and names that were pairwise different stay so. *)
Theorem AddOrUpdatePreset_keeps_names_distinct (ps : CustomPresetCollection)
    (p : CustomPreset) :
  match FindPreset ps (name p) with
  | Some _ =>
      map name (AddOrUpdatePreset ps p) = map name ps /\
      length (AddOrUpdatePreset ps p) = length ps
  | None =>
      map name (AddOrUpdatePreset ps p) = map name ps ++ [name p] /\
      length (AddOrUpdatePreset ps p) = S (length ps)
  end /\
  (List.NoDup (map name ps) ->
   List.NoDup (map name (AddOrUpdatePreset ps p))).
Proof.
  split; [|apply NoDup_names_AddOrUpdatePreset].
  pose proof (names_AddOrUpdatePreset ps p) as Hnames.
  assert (Hlen : length (AddOrUpdatePreset ps p) =
                 length (map name (AddOrUpdatePreset ps p)))
    by now rewrite length_map.
  rewrite Hnames in Hlen.
  destruct (FindPreset ps (name p)) as [q|] eqn:E.
  - apply FindPreset_Some in E.
    destruct (Nat.ltb_spec (FindPresetIndex ps (name p)) (length ps))
      as [Hlt|Hge].
    + rewrite length_map in Hlen. now split.
    + pose proof (FindPresetIndex_le ps (name p)).
      assert (Habsent : Forall (fun q => name q <> name p) ps)
        by (apply FindPresetIndex_absent; lia).
      rewrite List.Forall_forall in Habsent.
      destruct E as [Hin Hname]. now destruct (Habsent q Hin).
  - apply FindPreset_None, FindPresetIndex_absent in E.
    rewrite E, Nat.ltb_irrefl in Hnames, Hlen.
    rewrite length_app, length_map in Hlen. simpl in Hlen.
    split; [assumption|lia].
Qed.

Lemma RemovePreset_delete (ps : CustomPresetCollection) (n : text) :
  RemovePreset ps n = delete (FindPresetIndex ps n) ps.
Proof.
  unfold RemovePreset.
  destruct (Nat.leb_spec (length ps) (FindPresetIndex ps n)) as [Hge|Hlt];
    [|reflexivity].
  symmetry. clear - Hge. revert Hge. generalize (FindPresetIndex ps n) as i.
  induction ps as [|x ps IH]; intros i Hi; [now destruct i|].
  destruct i as [|i]; simpl in *; [lia|]. f_equal. apply IH. lia.
Qed.

Lemma find_delete_first_distinct (ps : CustomPresetCollection) (n : text) :
  List.NoDup (map name ps) ->
  List.find (fun preset => Text.eqb (name preset) n)
            (delete (find_if (fun preset => Text.eqb (name preset) n) ps) ps)
    = None.
Proof.
  induction ps as [|x ps IH]; [reflexivity|].
  cbn [map]. intros Hnd. inversion Hnd as [|? ? Hx Hps]; subst.
  cbn [find_if]. destruct (Text.eqb (name x) n) eqn:E.
  - cbn. apply find_none_Forall, List.Forall_forall.
    intros y Hy. apply Text_eqb_neq. intros Hname.
    apply Text_eqb_eq in E. apply Hx. rewrite E, <- Hname.
    now apply in_map.
  - cbn. rewrite E. now apply IH.
Qed.

(** X7. [RemovePreset] erases the first record bearing the name and
    nothing else: a name no record bears leaves the collection as it
    is; otherwise the collection is one shorter; every other name finds
    what it found before; and when the names are pairwise different the
    removed name is not found any more. *)
Theorem RemovePreset_first_match (ps : CustomPresetCollection) (n : text) :
  match FindPreset ps n with
  | None => RemovePreset ps n = ps
  | Some _ =>
      RemovePreset ps n = delete (FindPresetIndex ps n) ps /\
      S (length (RemovePreset ps n)) = length ps
  end /\
  (forall n', n' <> n ->
     FindPreset (RemovePreset ps n) n' = FindPreset ps n') /\
  (List.NoDup (map name ps) -> FindPreset (RemovePreset ps n) n = None).
Proof.
  pose proof (FindPresetIndex_le ps n) as Hle.
  split; [|split].
  - destruct (FindPreset ps n) as [p|] eqn:E.
    + split; [apply RemovePreset_delete|].
      rewrite RemovePreset_delete, length_delete.
      * pose proof (FindPreset_None ps n) as Hnone.
        destruct (Nat.eq_dec (FindPresetIndex ps n) (length ps)) as [Heq|Hne].
        -- apply FindPresetIndex_absent in Heq.
           apply FindPreset_Some in E as [Hin Hname].
           rewrite List.Forall_forall in Heq. now destruct (Heq p Hin).
        -- lia.
      * apply lookup_lt_is_Some_2.
        destruct (Nat.eq_dec (FindPresetIndex ps n) (length ps)) as [Heq|Hne];
          [|lia].
        apply FindPresetIndex_absent in Heq.
        apply FindPreset_Some in E as [Hin Hname].
        rewrite List.Forall_forall in Heq. now destruct (Heq p Hin).
    + unfold RemovePreset.
      apply FindPreset_None, FindPresetIndex_absent in E.
      now rewrite E, Nat.leb_refl.
  - intros n' Hn'. rewrite RemovePreset_delete.
    destruct (ps !! FindPresetIndex ps n) as [old|] eqn:Hold.
    + rewrite !FindPreset_find.
      apply (find_delete_other _ ps _ old Hold).
      apply Text_eqb_neq.
      rewrite (lookup_FindPresetIndex_name ps n old Hold). congruence.
    + apply lookup_ge_None in Hold. f_equal.
      clear - Hold. revert Hold. generalize (FindPresetIndex ps n) as i.
      induction ps as [|x ps IH]; intros i Hi; [now destruct i|].
      destruct i as [|i]; simpl in *; [lia|]. f_equal. apply IH. lia.
  - intros Hnd. rewrite RemovePreset_delete, FindPreset_find,
      FindPresetIndex_find_if.
    now apply find_delete_first_distinct.
Qed.

(** X8. Removing the name of a record just added to a collection that
    did not have the name gives the collection back. *)
Theorem RemovePreset_after_add (ps : CustomPresetCollection) (p : CustomPreset) :
  FindPreset ps (name p) = None ->
  RemovePreset (AddOrUpdatePreset ps p) (name p) = ps.
Proof.
  intros Habsent%FindPreset_None.
  rewrite RemovePreset_delete.
  destruct (AddOrUpdatePreset_index ps p) as (-> & _ & _).
  rewrite AddOrUpdatePreset_absent by assumption.
  apply FindPresetIndex_absent in Habsent. rewrite Habsent.
  clear. induction ps as [|x ps IH]; [reflexivity|].
  simpl. now f_equal.
Qed.

Lemma RemovePreset_after_add_witness :
  FindPreset [example_other] (name example_first) = None /\
  RemovePreset (AddOrUpdatePreset [example_other] example_first)
               (name example_first) = [example_other].
Proof.
  assert (H : FindPreset [example_other] (name example_first) = None)
    by reflexivity.
  split; [exact H|]. exact (RemovePreset_after_add _ _ H).
Defined.

(** X9. Whatever the files hold and whatever the store held, the
    records [LoadFromStorage] and [RefreshFromVanillaPresets] leave have
    pairwise different names: of several lines with one name the last
    one wins, at the place of the first. *)
Theorem loaded_names_are_distinct (s : State) :
  List.NoDup (map name (presets (final (LoadFromStorage s)))) /\
  List.NoDup (map name (presets (RefreshFromVanillaPresets s))).
Proof.
  assert (Hlines : forall parse content s0,
             List.NoDup (map name (presets s0)) ->
             List.NoDup (map name (presets (upsert_lines parse content s0)))).
  { intros parse content s0 H0.
    apply (presets_upsert_lines_ind (fun ps => List.NoDup (map name ps)));
      [exact H0|].
    intros ps line p Hps _ _. now apply NoDup_names_AddOrUpdatePreset. }
  assert (Hrefresh : forall s0,
             List.NoDup (map name (presets (RefreshFromVanillaPresets s0)))).
  { intros s0. unfold RefreshFromVanillaPresets.
    destruct (Text.empty _); [constructor|].
    destruct (vanillaFile _); try constructor.
    apply Hlines. constructor. }
  split; [|apply Hrefresh].
  unfold LoadFromStorage. cbn [storageFile set_presets].
  destruct (storageFile s) as [content|].
  - cbn [final]. apply Hlines. constructor.
  - rewrite presets_SaveToStorage. apply Hrefresh.
Qed.

(** ** Colour channels *)

Lemma shr_1_nonneg (mrs : shr_record) :
  (0 <= shr_m mrs)%Z -> (0 <= shr_m (shr_1 mrs))%Z.
Proof.
  destruct mrs as [m r s]. destruct m as [|[p|p|]|[p|p|]]; simpl; lia.
Qed.

Lemma iter_pos_shr_1_nonneg (p : positive) (mrs : shr_record) :
  (0 <= shr_m mrs)%Z -> (0 <= shr_m (SpecFloat.iter_pos shr_1 p mrs))%Z.
Proof.
  revert mrs; induction p as [p IH|p IH|]; intros mrs H; simpl.
  - apply IH, IH. now apply shr_1_nonneg.
  - now apply IH, IH.
  - now apply shr_1_nonneg.
Qed.

Lemma shr_fexp_nonneg (prec emax m e : Z) (l : location) :
  (0 <= m)%Z -> (0 <= shr_m (fst (shr_fexp prec emax m e l)))%Z.
Proof.
  intros Hm. unfold shr_fexp, shr.
  assert (H0 : (0 <= shr_m (shr_record_of_loc m l))%Z)
    by (destruct l as [|[]]; exact Hm).
  destruct (fexp prec emax (Zdigits2 m + e) - e)%Z; simpl; try assumption.
  now apply iter_pos_shr_1_nonneg.
Qed.

Lemma round_nearest_even_nonneg (m : Z) (l : location) :
  (0 <= m)%Z -> (0 <= round_nearest_even m l)%Z.
Proof.
  intros Hm. unfold round_nearest_even.
  destruct l as [|[]]; try destruct (Z.even m); lia.
Qed.

Lemma binary_round_aux_plus_signed (prec emax m e : Z) (l : location) :
  (0 <= m)%Z -> plus_signed (binary_round_aux prec emax false m e l) = true.
Proof.
  intros Hm. unfold binary_round_aux.
  pose proof (shr_fexp_nonneg prec emax m e l Hm) as H1.
  destruct (shr_fexp prec emax m e l) as [mrs' e']. cbn [fst] in H1.
  pose proof (shr_fexp_nonneg prec emax
                (round_nearest_even (shr_m mrs') (loc_of_shr_record mrs'))
                e' loc_Exact (round_nearest_even_nonneg _ _ H1)) as H2.
  destruct (shr_fexp prec emax _ e' loc_Exact) as [mrs'' e'']. cbn [fst] in H2.
  destruct (shr_m mrs'') as [|p|p]; [reflexivity| |lia].
  now destruct (e'' <=? emax - prec)%Z.
Qed.

Lemma SFdiv_plus_signed (prec emax : Z) (mx my : positive) (ex ey : Z) :
  plus_signed (SFdiv prec emax (S754_finite false mx ex)
                               (S754_finite false my ey)) = true.
Proof.
  unfold SFdiv. cbn [xorb].
  destruct (SFdiv_core_binary prec emax (Z.pos mx) ex (Z.pos my) ey)
    as [[mz ez] lz] eqn:E.
  apply binary_round_aux_plus_signed.
  unfold SFdiv_core_binary in E.
  set (s := (ex - ey - _)%Z) in E.
  set (m' := match s with
             | Z0 => Z.pos mx
             | Z.pos _ => Z.shiftl (Z.pos mx) s
             | Z.neg _ => 0%Z
             end) in E.
  assert (Hm' : (0 <= m')%Z).
  { subst m'. destruct s; try lia. apply Z.shiftl_nonneg. lia. }
  assert (Hq : mz = (m' / Z.pos my)%Z).
  { unfold Z.div. destruct (Z.div_eucl m' (Z.pos my)) as [q r].
    now injection E as <- _ _. }
  rewrite Hq. apply Z.div_pos; lia.
Qed.

Lemma plus_signed_not_negative (x : F32.float) :
  plus_signed x = true -> not_negative x = true.
Proof. now destruct x as [[]|[]| |[] m e]. Qed.

Lemma decode_component_not_negative (component : option text) :
  not_negative (decode_component component) = true.
Proof.
  unfold decode_component.
  destruct component as [component|]; [|reflexivity].
  destruct (F32.stof component) as [v|]; [|reflexivity].
  destruct (F32.lt F32.zero v) eqn:Hpos; [|reflexivity].
  destruct (F32.lt F32.one v) eqn:Hone.
  - apply plus_signed_not_negative.
    destruct v as [[]|[]| |[] m e]; try discriminate; [reflexivity|].
    apply SFdiv_plus_signed.
  - now destruct v as [[]|[]| |[] m e].
Qed.

(** X10. No channel [ParseColorToken] yields is negative or NaN, whatever
    the token holds: [0.0f <= channel] is true for each of the three. *)
Theorem ParseColorToken_not_negative (token : text) :
  not_negative (r (ParseColorToken token)) = true /\
  not_negative (g (ParseColorToken token)) = true /\
  not_negative (b (ParseColorToken token)) = true.
Proof.
  rewrite ParseColorToken_decode. cbn zeta. cbn [r g b].
  repeat split; apply decode_component_not_negative.
Qed.

(** ** Save and load cycles *)

Lemma numeral_stable_table :
  forallb (fun i => numeral_stable (Z.of_nat i)) (seq 0 1001) = true /\
  decode_component (Some (F32.fixed3 true 0)) =
    decode_component (Some (F32.fixed3 false 0)).
Proof. split; vm_compute; reflexivity. Qed.

Lemma numeral_stable_unit (n : Z) :
  (0 <= n <= 1000)%Z -> numeral_stable n = true.
Proof.
  destruct numeral_stable_table as [Htable _]. intros Hn.
  rewrite forallb_forall in Htable.
  rewrite <- (Z2Nat.id n) by lia. apply Htable, in_seq. lia.
Qed.

(** A unit channel written and read back is a unit channel that the next
    writing and reading leave as it is. *)
Lemma decode_put_fixed3_stable (x : F32.float) :
  unit_channel x = true ->
  let y := decode_component (Some (F32.put_fixed3 x)) in
  unit_channel y = true /\
  decode_component (Some (F32.put_fixed3 y)) = y.
Proof.
  intros (neg & n & q & Hput & Hn & _)%put_fixed3_unit. cbn zeta.
  rewrite Hput.
  assert (Hy : decode_component (Some (F32.fixed3 neg n)) =
               decode_component (Some (F32.fixed3 false n)) /\
               (0 <= n <= 1000)%Z).
  { destruct Hn as [[-> Hn]|[-> ->]]; [now split|].
    split; [apply numeral_stable_table|lia]. }
  destruct Hy as [-> Hrange].
  pose proof (numeral_stable_unit n Hrange) as Hstable.
  unfold numeral_stable in Hstable. cbn zeta in Hstable.
  apply andb_prop in Hstable as [Hunit Heq].
  apply Text_eqb_eq in Heq. split; [exact Hunit|]. now rewrite Heq.
Qed.

Lemma ParseColorToken_SerializeColorToken (c : PresetPaintColor) :
  unit_color c = true ->
  ParseColorToken (SerializeColorToken c) =
  {| r := decode_component (Some (F32.put_fixed3 (r c)));
     g := decode_component (Some (F32.put_fixed3 (g c)));
     b := decode_component (Some (F32.put_fixed3 (b c))) |}.
Proof.
  unfold unit_color. intros [[Hr Hg]%andb_prop Hb]%andb_prop.
  apply put_fixed3_decode in Hr as (_ & Hr1 & _).
  apply put_fixed3_decode in Hg as (_ & Hg1 & _).
  apply put_fixed3_decode in Hb as (Hb0 & Hb1 & _).
  rewrite ParseColorToken_decode. cbn zeta. rewrite getlines_split.
  unfold SerializeColorToken. cbn [app].
  rewrite !split_field_delim by assumption.
  destruct (F32.put_fixed3 (b c)) as [|ch t] eqn:E; [congruence|].
  rewrite split_field_end by assumption. reflexivity.
Qed.

Lemma reread_color_stable (c : PresetPaintColor) :
  unit_color c = true ->
  let c' := ParseColorToken (SerializeColorToken c) in
  unit_color c' = true /\ ParseColorToken (SerializeColorToken c') = c'.
Proof.
  intros Hc. cbn zeta.
  rewrite (ParseColorToken_SerializeColorToken c Hc).
  unfold unit_color in Hc. apply andb_prop in Hc as [[Hr Hg]%andb_prop Hb].
  destruct (decode_put_fixed3_stable _ Hr) as [Hr1 Hr2].
  destruct (decode_put_fixed3_stable _ Hg) as [Hg1 Hg2].
  destruct (decode_put_fixed3_stable _ Hb) as [Hb1 Hb2].
  cbn zeta in *.
  assert (Hunit : unit_color
            {| r := decode_component (Some (F32.put_fixed3 (r c)));
               g := decode_component (Some (F32.put_fixed3 (g c)));
               b := decode_component (Some (F32.put_fixed3 (b c))) |} = true).
  { unfold unit_color. cbn [r g b]. now rewrite Hr1, Hg1, Hb1. }
  split; [exact Hunit|].
  rewrite (ParseColorToken_SerializeColorToken _ Hunit). cbn [r g b].
  now rewrite Hr2, Hg2, Hb2.
Qed.

Lemma reread_stable (p : CustomPreset) :
  storable p = true ->
  storable (reread p) = true /\ reread (reread p) = reread p.
Proof.
  unfold storable.
  intros [[Hrest Hprimary]%andb_prop Haccent]%andb_prop.
  destruct (reread_color_stable _ Hprimary) as [Hp1 Hp2].
  destruct (reread_color_stable _ Haccent) as [Ha1 Ha2].
  cbn zeta in *. unfold reread.
  cbn [name loadoutCode customization primaryColor accentColor carLabel
       decalLabel wheelsLabel paintFinishMatte paintFinishPearlescent].
  split.
  - now rewrite Hrest, Hp1, Ha1.
  - now rewrite Hp2, Ha2.
Qed.

Lemma upsert_lines_files (parse : text -> option CustomPreset)
    (content : text) (s : State) :
  storageDirectory (upsert_lines parse content s) = storageDirectory s /\
  storageFile (upsert_lines parse content s) = storageFile s /\
  storageWritable (upsert_lines parse content s) = storageWritable s /\
  vanillaFile (upsert_lines parse content s) = vanillaFile s.
Proof.
  unfold upsert_lines.
  generalize (Text.getlines "010" content) as lines.
  intros lines; revert s; induction lines as [|line lines IH]; intros s;
    [repeat split|].
  simpl. destruct (IH (match parse line with
                       | Some preset => upsert preset s
                       | None => s
                       end)) as (-> & -> & -> & ->).
  destruct (parse line); repeat split.
Qed.

(** One save and load of storable records with different names. *)
Lemma save_load_cycle (s : State) :
  storageDirectory s <> DirMissing false ->
  storageWritable s = true ->
  List.NoDup (map name (presets s)) ->
  Forall (fun p => storable p = true) (presets s) ->
  let s' := final (LoadFromStorage (final (SaveToStorage s))) in
  presets s' = map reread (presets s) /\
  storageDirectory s' = DirPresent /\
  storageWritable s' = true.
Proof.
  intros Hdir Hwritable Hnames Hstorable. cbn zeta.
  assert (Hsave : exists s1,
             SaveToStorage s = Returns s1 /\ presets s1 = presets s /\
             storageFile s1 = Some (concat (map StorageLine (presets s))) /\
             storageDirectory s1 = DirPresent /\ storageWritable s1 = true).
  { unfold SaveToStorage, EnsureStorageDirectory.
    destruct (storageDirectory s) as [|[|]] eqn:E; try congruence;
      cbn [storageWritable set_storageDirectory]; rewrite Hwritable;
      eexists; repeat split; cbn; assumption. }
  destruct Hsave as (s1 & -> & Hpresets & Hfile & Hdir1 & Hw1).
  cbn [final]. unfold LoadFromStorage.
  cbn [storageFile set_presets]. rewrite Hfile. cbn [final].
  destruct (upsert_lines_files ParseStorageLine
              (concat (map StorageLine (presets s))) (set_presets [] s1))
    as (-> & _ & -> & _).
  cbn [storageDirectory storageWritable set_presets].
  split; [|now split].
  rewrite presets_upsert_lines. cbn [presets set_presets].
  rewrite records_saved by assumption.
  rewrite fold_AddOrUpdatePreset_distinct; [reflexivity|].
  cbn [app]. rewrite map_map.
  now rewrite (map_ext (fun p => name (reread p)) name) by reflexivity.
Qed.

(** X11. After one save and load of storable records with different
    names, a further save and load gives exactly the same records:
    colours read back from three decimals are written as the same three
    decimals again. *)
Theorem save_load_is_stable (s : State) :
  storageDirectory s <> DirMissing false ->
  storageWritable s = true ->
  List.NoDup (map name (presets s)) ->
  Forall (fun p => storable p = true) (presets s) ->
  let once := final (LoadFromStorage (final (SaveToStorage s))) in
  let twice := final (LoadFromStorage (final (SaveToStorage once))) in
  presets twice = presets once.
Proof.
  intros Hdir Hwritable Hnames Hstorable. cbn zeta.
  destruct (save_load_cycle s Hdir Hwritable Hnames Hstorable)
    as (Hpresets & Hdir1 & Hw1).
  cbn zeta in *.
  set (once := final (LoadFromStorage (final (SaveToStorage s)))) in *.
  assert (Hstorable1 : Forall (fun p => storable p = true) (presets once)).
  { rewrite Hpresets. clear - Hstorable.
    induction Hstorable as [|p ps Hp _ IH]; cbn [map]; constructor;
      [now apply reread_stable|exact IH]. }
  assert (Hnames1 : List.NoDup (map name (presets once))).
  { rewrite Hpresets, map_map.
    now rewrite (map_ext (fun p => name (reread p)) name) by reflexivity. }
  destruct (save_load_cycle once ltac:(congruence) Hw1 Hnames1 Hstorable1)
    as (-> & _).
  rewrite Hpresets, map_map. apply map_ext_in.
  intros p Hp. apply reread_stable.
  rewrite List.Forall_forall in Hstorable. now apply Hstorable.
Qed.

Lemma save_load_is_stable_witness :
  storageDirectory example_store <> DirMissing false /\
  storageWritable example_store = true /\
  List.NoDup (map name (presets example_store)) /\
  Forall (fun p => storable p = true) (presets example_store) /\
  presets (final (LoadFromStorage (final (SaveToStorage
             (final (LoadFromStorage (final (SaveToStorage example_store))))))))
  = presets (final (LoadFromStorage (final (SaveToStorage example_store)))).
Proof.
  assert (H1 : storageDirectory example_store <> DirMissing false)
    by discriminate.
  assert (H2 : storageWritable example_store = true) by reflexivity.
  assert (H3 : List.NoDup (map name (presets example_store))).
  { repeat constructor; cbv; intuition discriminate. }
  assert (H4 : Forall (fun p => storable p = true) (presets example_store)).
  { repeat constructor; vm_compute; reflexivity. }
  split; [exact H1|]. split; [exact H2|]. split; [exact H3|].
  split; [exact H4|].
  exact (save_load_is_stable example_store H1 H2 H3 H4).
Defined.


Lemma SaveToStorage_outcomes_aux (s : State) :
  match SaveToStorage s with
  | Throws s' => storageDirectory s = DirMissing false
  | Returns s1 =>
      presets s1 = presets s /\
      (storageDirectory s <> DirMissing false /\
       (storageWritable s = true ->
        storageFile s1 = Some (concat (map StorageLine (presets s)))))
  end.
Proof.
  unfold SaveToStorage, EnsureStorageDirectory.
  destruct (storageDirectory s) as [|[|]]; [| |reflexivity];
    cbn [storageWritable set_storageDirectory];
    destruct (storageWritable s); cbn; repeat split;
    try discriminate; try congruence.
Qed.

Lemma presets_RefreshFromVanillaPresets (s : State) :
  presets (RefreshFromVanillaPresets s) =
  if Text.empty (vanillaPresetsPath s) then []
  else match vanillaFile s with
       | FileContent content =>
           fold_left AddOrUpdatePreset (records ParseVanillaLine content) []
       | _ => []
       end.
Proof.
  unfold RefreshFromVanillaPresets.
  cbn [vanillaPresetsPath vanillaFile set_presets].
  destruct (Text.empty (vanillaPresetsPath s)); [reflexivity|].
  destruct (vanillaFile s); try reflexivity.
  now rewrite presets_upsert_lines.
Qed.

Lemma console_RefreshFromVanillaPresets (s : State) :
  exists logged, console (RefreshFromVanillaPresets s) = console s ++ logged.
Proof.
  unfold RefreshFromVanillaPresets.
  destruct (Text.empty _); [eexists [_]; reflexivity|].
  destruct (vanillaFile _); try (eexists [_]; reflexivity).
  exists []. rewrite console_upsert_lines. cbn. now rewrite app_nil_r.
Qed.

Lemma console_SaveToStorage (s : State) :
  exists logged, console (final (SaveToStorage s)) = console s ++ logged.
Proof.
  unfold SaveToStorage, EnsureStorageDirectory.
  destruct (storageDirectory s) as [|[|]];
    cbn [storageWritable set_storageDirectory final];
    try destruct (storageWritable s); cbn;
    try (exists []; now rewrite app_nil_r); eexists [_]; reflexivity.
Qed.



(** X14. Without a storage file that can be opened, [LoadFromStorage]
    logs the fallback notice first, leaves the records of the vanilla
    import, and saves them: it returns unless the directory cannot be
    created, and when the file can be written it then holds one line
    per imported record. *)
Theorem LoadFromStorage_fallback (s : State) :
  storageFile s = None ->
  let s' := final (LoadFromStorage s) in
  presets s' = presets (RefreshFromVanillaPresets s) /\
  (exists logged,
     console s' =
       console s ++
       str "ExpandedPresets: No stored presets were found, importing from presets.data instead."
       :: logged) /\
  (returned (LoadFromStorage s) = false <->
   storageDirectory s = DirMissing false) /\
  (returned (LoadFromStorage s) = true -> storageWritable s = true ->
   storageFile s' = Some (concat (map StorageLine (presets s')))).
Proof.
  intros Hfile. cbn zeta. unfold LoadFromStorage.
  cbn [storageFile set_presets]. rewrite Hfile.
  set (notice := str "ExpandedPresets: No stored presets were found, importing from presets.data instead.").
  set (s1 := log notice (set_presets [] s)).
  assert (Hfiles : storageDirectory (RefreshFromVanillaPresets s1)
                     = storageDirectory s /\
                   storageWritable (RefreshFromVanillaPresets s1)
                     = storageWritable s).
  { unfold RefreshFromVanillaPresets.
    destruct (Text.empty _); [now split|].
    destruct (vanillaFile _); try now split.
    destruct (upsert_lines_files ParseVanillaLine content (set_presets [] s1))
      as (-> & _ & -> & _). now split. }
  destruct Hfiles as [Hdir Hwritable].
  split; [|split; [|split]].
  - rewrite presets_SaveToStorage, !presets_RefreshFromVanillaPresets.
    reflexivity.
  - destruct (console_SaveToStorage (RefreshFromVanillaPresets s1))
      as (l2 & ->).
    destruct (console_RefreshFromVanillaPresets s1) as (l1 & ->).
    exists (l1 ++ l2). subst s1. cbn [console log set_presets].
    now rewrite <- !app_assoc.
  - pose proof (SaveToStorage_outcomes_aux (RefreshFromVanillaPresets s1)) as H.
    destruct (SaveToStorage (RefreshFromVanillaPresets s1)) as [s2|s2];
      cbn [returned].
    + split; [discriminate|]. intros Hd. rewrite <- Hdir in Hd.
      destruct H as (_ & H & _). congruence.
    + split; [intros _|reflexivity]. congruence.
  - pose proof (SaveToStorage_outcomes_aux (RefreshFromVanillaPresets s1)) as H.
    destruct (SaveToStorage (RefreshFromVanillaPresets s1)) as [s2|s2];
      cbn [returned final]; [|discriminate].
    intros _ Hw. rewrite <- Hwritable in Hw.
    destruct H as (Hp & _ & H). rewrite Hp. now apply H.
Qed.

Lemma LoadFromStorage_fallback_witness :
  storageFile example_state = None /\
  presets (final (LoadFromStorage example_state)) =
    presets (RefreshFromVanillaPresets example_state).
Proof.
  split; [reflexivity|].
  exact (proj1 (LoadFromStorage_fallback example_state eq_refl)).
Defined.

(** ** Lines of the storage file *)

Lemma split_free delim (f : text) :
  Fields.free delim f = true -> length (Fields.split delim f) < 2.
Proof.
  destruct f as [|c f]; [simpl; lia|].
  intros H. rewrite split_field_end by assumption. simpl. lia.
Qed.

(** X15. The lines of a storage file that yield no record are, after
    trimming, exactly the comments (first character [#]) and the lines
    with a single field: no bar at all, which includes the blank line,
    or one bar at the very end. Every other line yields a record. *)
Theorem ParseStorageLine_discards (line : text) :
  let t := TrimWhitespace line in
  ParseStorageLine line = None <->
  Text.front_is "#" t = true \/
  exists f, Fields.free "|" f = true /\ (t = f \/ t = f ++ ["|"%char]).
Proof.
  cbn zeta. unfold ParseStorageLine, TokenizeLine.
  set (t := TrimWhitespace line). rewrite getlines_split.
  destruct (split_free_join "|" t) as [Hfree Hjoin].
  split.
  - destruct (Text.empty t) eqn:Hempty.
    + intros _. right. exists []. apply Text_empty_nil in Hempty. now split; [|left].
    + destruct (Text.front_is "#" t); [now left|]. cbn [orb].
      destruct (Fields.split "|" t) as [|f [|f' fields]] eqn:E.
      * apply split_nil in E. now rewrite E in Hempty.
      * intros _. right. exists f. inversion Hfree; subst.
        split; [assumption|]. cbn [Fields.join] in Hjoin.
        destruct (ends_with "|" t); [now right|left].
        now rewrite app_nil_r in Hjoin.
      * discriminate.
  - intros [Hfront|(f & Hf & [Ht|Ht])].
    + rewrite Hfront, orb_true_r. reflexivity.
    + destruct (Text.empty t || Text.front_is "#" t); [reflexivity|].
      rewrite Ht. pose proof (split_free "|" f Hf) as Hlen.
      apply Nat.ltb_lt in Hlen. now rewrite Hlen.
    + destruct (Text.empty t || Text.front_is "#" t); [reflexivity|].
      rewrite Ht, split_field_delim by assumption. reflexivity.
Qed.



(** ** The preset list of the window *)

Lemma tolower_idempotent (c : ascii) : tolower (tolower c) = tolower c.
Proof. destruct c as [[] [] [] [] [] [] [] []]; reflexivity. Qed.

Lemma starts_with_prefix (p s : text) :
  starts_with p s = true <-> exists after, s = p ++ after.
Proof.
  revert s; induction p as [|c p IH]; intros s.
  - split; [intros _; now exists s|reflexivity].
  - destruct s as [|d s]; cbn [starts_with].
    + split; [discriminate|]. intros (after & H). discriminate.
    + split.
      * intros [Hc (after & ->)%IH]%andb_prop.
        apply Ascii.eqb_eq in Hc. subst d. now exists after.
      * intros (after & [= -> ->]). rewrite Ascii.eqb_refl. cbn.
        apply IH. now exists after.
Qed.

Lemma string_find_occurs (haystack needle : text) :
  is_npos (string_find haystack needle) = false <-> occurs_in needle haystack.
Proof.
  induction haystack as [|c haystack IH]; cbn [string_find].
  - destruct (starts_with needle []) eqn:E; cbn [is_npos].
    + split; [intros _|reflexivity].
      apply starts_with_prefix in E as (after & E). now exists [], after.
    + split; [discriminate|]. intros (before & after & H).
      symmetry in H. apply app_eq_nil in H as [-> H].
      apply app_eq_nil in H as [-> _]. discriminate.
  - destruct (starts_with needle (c :: haystack)) eqn:E; cbn [is_npos].
    + split; [intros _|reflexivity].
      apply starts_with_prefix in E as (after & E). now exists [], after.
    + assert (Hmap : is_npos (option_map S (string_find haystack needle)) =
                     is_npos (string_find haystack needle))
        by now destruct (string_find haystack needle).
      rewrite Hmap, IH. split.
      * intros (before & after & ->). now exists (c :: before), after.
      * intros (before & after & H). destruct before as [|d before].
        -- cbn [app] in H.
           assert (starts_with needle (c :: haystack) = true)
             by (apply starts_with_prefix; now exists after).
           congruence.
        -- injection H as _ ->. now exists before, after.
Qed.

Lemma filter_loop_In (filterLower : text) (rest : CustomPresetCollection)
    (i : nat) (acc : list nat) (j : nat) :
  In j (filter_loop filterLower i rest acc) <->
  In j acc \/
  exists k p, j = i + k /\ rest !! k = Some p /\
              filtered_out filterLower p = false.
Proof.
  revert i acc; induction rest as [|q rest IH]; intros i acc.
  - cbn [filter_loop]. split; [now left|].
    intros [H|(k & p & _ & H & _)]; [assumption|discriminate].
  - cbn [filter_loop]. rewrite IH. split.
    + intros [H|(k & p & -> & Hk & Hp)].
      * destruct (filtered_out filterLower q) eqn:E; [now left|].
        apply in_app_or in H as [H|[<-|[]]]; [now left|].
        right. exists 0, q. split; [lia|now split].
      * right. exists (S k), p. split; [lia|now split].
    + intros [H|(k & p & -> & Hk & Hp)].
      * left. destruct (filtered_out filterLower q); [assumption|].
        apply in_or_app. now left.
      * destruct k as [|k].
        -- injection Hk as ->. left. rewrite Hp. apply in_or_app. right.
           left. lia.
        -- right. exists k, p. split; [lia|now split].
Qed.

(** X17. The rows [RenderPresetList] shows for a search text are the
    indices of the records whose name or loadout code contains the text
    when letter case is ignored; the empty text shows every record. *)
Theorem filteredIndices_matches (filter : text) (ps : CustomPresetCollection)
    (j : nat) :
  In j (filteredIndices filter ps) <->
  exists p, ps !! j = Some p /\
    (filter = [] \/
     occurs_in (ToLower filter) (ToLower (name p)) \/
     occurs_in (ToLower filter) (ToLower (loadoutCode p))).
Proof.
  unfold filteredIndices. rewrite filter_loop_In.
  assert (Hout : forall p,
             filtered_out (ToLower filter) p = false <->
             filter = [] \/
             occurs_in (ToLower filter) (ToLower (name p)) \/
             occurs_in (ToLower filter) (ToLower (loadoutCode p))).
  { intros p. unfold filtered_out. cbn zeta.
    rewrite <- !string_find_occurs.
    destruct filter as [|c filter]; [split; [now left|reflexivity]|].
    cbn [ToLower map Text.empty negb andb].
    destruct (is_npos (string_find (ToLower (name p)) _)),
             (is_npos (string_find (ToLower (loadoutCode p)) _));
      cbn; split; auto; intros [H|[H|H]]; congruence. }
  split.
  - intros [[]|(k & p & -> & Hk & Hp)]. exists p. split; [exact Hk|].
    now apply Hout.
  - intros (p & Hj & Hp). right. exists j, p.
    split; [reflexivity|]. split; [assumption|]. now apply Hout.
Qed.

Lemma StronglySorted_snoc (l : list nat) (i : nat) :
  StronglySorted lt l -> Forall (fun a => a < i) l ->
  StronglySorted lt (l ++ [i]).
Proof.
  induction 1 as [|a l Hl IH Ha]; intros Hall; simpl.
  - repeat constructor.
  - inversion Hall; subst. constructor; [now apply IH|].
    apply Forall_app. split; [assumption|now constructor].
Qed.

Lemma filter_loop_sorted (filterLower : text) (rest : CustomPresetCollection)
    (i : nat) (acc : list nat) :
  StronglySorted lt acc -> Forall (fun a => a < i) acc ->
  StronglySorted lt (filter_loop filterLower i rest acc).
Proof.
  revert i acc; induction rest as [|q rest IH]; intros i acc Hs Hall;
    [exact Hs|].
  cbn [filter_loop]. apply IH.
  - destruct (filtered_out filterLower q); [assumption|].
    now apply StronglySorted_snoc.
  - assert (Hall' : Forall (fun a => a < S i) acc)
      by (eapply Forall_impl; [exact Hall|]; intros a Ha; cbn beta in *; lia).
    destruct (filtered_out filterLower q); [assumption|].
    apply Forall_app. split; [assumption|]. repeat constructor.
Qed.

(** X18. The rows are listed in collection order without repetition
    (their indices increase strictly), each is an index of the
    collection, and the search does not depend on the letter case of
    the text typed. *)
Theorem filteredIndices_in_order (filter : text) (ps : CustomPresetCollection) :
  StronglySorted lt (filteredIndices filter ps) /\
  Forall (fun j => j < length ps) (filteredIndices filter ps) /\
  filteredIndices (ToLower filter) ps = filteredIndices filter ps.
Proof.
  split; [|split].
  - apply filter_loop_sorted; constructor.
  - apply List.Forall_forall. intros j Hj.
    apply filter_loop_In in Hj as [[]|(k & p & -> & Hk & _)].
    now apply lookup_lt_Some in Hk.
  - unfold filteredIndices, ToLower. rewrite map_map.
    now rewrite (map_ext _ _ tolower_idempotent).
Qed.

(** ** The buttons of the editor *)

Lemma int_of_size_small (n : nat) :
  (Z.of_nat n < 2 ^ 31)%Z -> int_of_size n = Z.of_nat n.
Proof.
  intros H. unfold int_of_size.
  change (2 ^ 32)%Z with 4294967296%Z. change (2 ^ 31)%Z with 2147483648%Z in *.
  rewrite Z.mod_small by lia.
  destruct (Z.ltb_spec (Z.of_nat n) 2147483648); [reflexivity|lia].
Qed.

Lemma FindPreset_AddOrUpdatePreset (ps : CustomPresetCollection)
    (p : CustomPreset) :
  FindPreset (AddOrUpdatePreset ps p) (name p) = Some p.
Proof.
  destruct (AddOrUpdatePreset_index ps p) as (Hi & _ & Hat).
  rewrite <- Hi in Hat. exact (FindPreset_found _ _ _ _ eq_refl Hat).
Qed.

Lemma SaveToStorage_throws (s s' : State) :
  SaveToStorage s = Throws s' -> s' = s /\ storageDirectory s = DirMissing false.
Proof.
  unfold SaveToStorage, EnsureStorageDirectory.
  destruct (storageDirectory s) as [|[|]];
    cbn [storageWritable set_storageDirectory].
  - destruct (storageWritable s); discriminate.
  - destruct (storageWritable s); discriminate.
  - intros [= <-]. now split.
Qed.

Lemma SaveToStorage_returns (s s1 : State) :
  SaveToStorage s = Returns s1 ->
  presets s1 = presets s /\
  exists logged, console s1 = console s ++ logged.
Proof.
  intros H. pose proof (presets_SaveToStorage s) as Hp.
  destruct (console_SaveToStorage s) as (logged & Hc).
  rewrite H in Hp, Hc. cbn [final] in *. split; [assumption|now exists logged].
Qed.

Lemma SaveToStorage_file (s s1 : State) :
  SaveToStorage s = Returns s1 ->
  storageDirectory s <> DirMissing false /\
  if storageWritable s
  then storageFile s1 = Some (concat (map StorageLine (presets s))) /\
       console s1 = console s
  else storageFile s1 = storageFile s /\
       console s1 =
         console s ++
         [str "ExpandedPresets: Failed to open storage file for writing: "
            ++ storageFilePath s].
Proof.
  unfold SaveToStorage, EnsureStorageDirectory.
  destruct s as [ps path vpath out dir file writable vanilla other].
  cbn [storageDirectory storageWritable set_storageDirectory].
  destruct dir as [|[|]]; [| |discriminate];
    destruct writable; intros [= <-]; cbn; repeat split; discriminate.
Qed.

(** X19. The "Add / Update" button. With an empty name or loadout code
    it only logs one line: records, file and selection stay. Otherwise
    the edited record is upserted and saved. When the save returns, the
    record is found under its name and the selection is its index; on a
    writable disk the storage file then holds one line per record of
    the updated collection and nothing is logged, on an unwritable one
    the file is left as it was and the failure is logged. When the save
    throws, the record is in the collection all the same, the file and
    the log are untouched and the selection is the old one. *)
Theorem AddUpdate_pressed_outcomes (pl : Plugin) :
  let e := editingPreset pl in
  let m := presetManager pl in
  match AddUpdate_pressed pl with
  | PluginReturns pl' =>
      editingPreset pl' = e /\
      if Text.empty (name e) || Text.empty (loadoutCode e)
      then presets (presetManager pl') = presets m /\
           storageFile (presetManager pl') = storageFile m /\
           selectedPresetIndex pl' = selectedPresetIndex pl /\
           console (presetManager pl') =
             console m ++
             [str "ExpandedPresets: A preset name and loadout code are required."]
      else FindPreset (presets (presetManager pl')) (name e) = Some e /\
           ((Z.of_nat (length (presets (presetManager pl'))) < 2 ^ 31)%Z ->
            (0 <= selectedPresetIndex pl')%Z /\
            presets (presetManager pl') !! Z.to_nat (selectedPresetIndex pl')
              = Some e) /\
           presets (presetManager pl') = AddOrUpdatePreset (presets m) e /\
           storageDirectory m <> DirMissing false /\
           if storageWritable m
           then storageFile (presetManager pl') =
                  Some (concat (map StorageLine (presets (presetManager pl')))) /\
                console (presetManager pl') = console m
           else storageFile (presetManager pl') = storageFile m /\
                console (presetManager pl') =
                  console m ++
                  [str "ExpandedPresets: Failed to open storage file for writing: "
                     ++ storageFilePath m]
  | PluginThrows pl' =>
      Text.empty (name e) || Text.empty (loadoutCode e) = false /\
      storageDirectory m = DirMissing false /\
      FindPreset (presets (presetManager pl')) (name e) = Some e /\
      selectedPresetIndex pl' = selectedPresetIndex pl /\
      storageFile (presetManager pl') = storageFile m /\
      console (presetManager pl') = console m
  end.
Proof.
  cbn zeta. unfold AddUpdate_pressed.
  destruct (Text.empty (name (editingPreset pl)) ||
            Text.empty (loadoutCode (editingPreset pl))) eqn:Hempty.
  - repeat split.
  - destruct (SaveToStorage (upsert (editingPreset pl) (presetManager pl)))
      as [m'|m'] eqn:Hsave.
    + apply SaveToStorage_file in Hsave as Hfile.
      apply SaveToStorage_returns in Hsave as [Hpresets _].
      destruct Hfile as [Hdir Hfile].
      cbn [upsert presets set_presets storageDirectory storageWritable
           storageFile console storageFilePath] in Hpresets, Hdir, Hfile.
      cbn [editingPreset presetManager selectedPresetIndex
           set_selectedPresetIndex set_presetManager].
      rewrite Hpresets. split; [reflexivity|].
      split; [apply FindPreset_AddOrUpdatePreset|].
      split; [|split; [reflexivity|split; [exact Hdir|exact Hfile]]].
      intros Hsmall.
      destruct (AddOrUpdatePreset_index (presets (presetManager pl))
                  (editingPreset pl)) as (Hi & Hlt & Hat).
      rewrite int_of_size_small by lia.
      rewrite Nat2Z.id, Hi. split; [lia|exact Hat].
    + apply SaveToStorage_throws in Hsave as [-> Hdir].
      cbn [editingPreset presetManager selectedPresetIndex set_presetManager
           upsert presets set_presets storageDirectory storageFile console]
        in *.
      repeat split; try assumption. apply FindPreset_AddOrUpdatePreset.
Qed.

Lemma find_if_at_most {A} (pred : A -> bool) (l : list A) (i : nat) (x : A) :
  l !! i = Some x -> pred x = true -> find_if pred l <= i.
Proof.
  revert i; induction l as [|y l IH]; intros i; [discriminate|].
  simpl. destruct (pred y) eqn:Hy; [lia|].
  destruct i as [|i]; simpl.
  - intros [= ->]. congruence.
  - intros Hl Hx. specialize (IH i Hl Hx). lia.
Qed.

Lemma FindPresetIndex_of_member (ps : CustomPresetCollection) (i : nat)
    (p : CustomPreset) :
  ps !! i = Some p ->
  FindPresetIndex ps (name p) <= i /\
  (List.NoDup (map name ps) -> FindPresetIndex ps (name p) = i).
Proof.
  intros Hp. rewrite FindPresetIndex_find_if.
  set (pred := fun preset => Text.eqb (name preset) (name p)).
  assert (Hle : find_if pred ps <= i)
    by (apply (find_if_at_most pred ps i p Hp); apply Text_eqb_refl).
  split; [exact Hle|]. intros Hnd.
  apply lookup_lt_Some in Hp as Hlt.
  destruct (find_if_found pred ps) as (q & Hq & Hname); [lia|].
  apply Text_eqb_eq in Hname.
  apply (NoDup_lookup (map name ps) _ _ (name p)).
  - now apply NoDup_ListNoDup.
  - change (map name ps) with (name <$> ps).
    now rewrite list_lookup_fmap, Hq, <- Hname.
  - change (map name ps) with (name <$> ps).
    now rewrite list_lookup_fmap, Hp.
Qed.

(** X20. The "Delete" button with a selected row: the record removed is
    the first one bearing the selected record's name, which is the
    selected record itself when the names are pairwise different; after
    a save that returns, nothing is selected and the form is blank;
    after a save that throws, the record is gone all the same and the
    selection is left on the old index. *)
Theorem Delete_pressed_outcomes (pl : Plugin) (i : nat) (p : CustomPreset) :
  let ps := presets (presetManager pl) in
  selectedPresetIndex pl = Z.of_nat i ->
  ps !! i = Some p ->
  (Z.of_nat (length ps) < 2 ^ 31)%Z ->
  FindPresetIndex ps (name p) <= i /\
  (List.NoDup (map name ps) -> FindPresetIndex ps (name p) = i) /\
  match Delete_pressed pl with
  | PluginReturns pl' =>
      presets (presetManager pl') = delete (FindPresetIndex ps (name p)) ps /\
      selectedPresetIndex pl' = (-1)%Z /\
      editingPreset pl' = vanilla_preset [] []
  | PluginThrows pl' =>
      presets (presetManager pl') = delete (FindPresetIndex ps (name p)) ps /\
      selectedPresetIndex pl' = Z.of_nat i /\
      editingPreset pl' = editingPreset pl
  end.
Proof.
  cbn zeta. intros Hsel Hp Hsmall.
  destruct (FindPresetIndex_of_member _ _ _ Hp) as [Hle Hnd].
  split; [exact Hle|]. split; [exact Hnd|].
  unfold Delete_pressed. rewrite Hsel.
  apply lookup_lt_Some in Hp as Hlt.
  destruct (Z.leb_spec 0 (Z.of_nat i)); [|lia].
  rewrite int_of_size_small by assumption.
  destruct (Z.ltb_spec (Z.of_nat i)
              (Z.of_nat (length (presets (presetManager pl))))); [|lia].
  rewrite Nat2Z.id, Hp.
  destruct (SaveToStorage _) as [m'|m'] eqn:Hsave.
  - apply SaveToStorage_returns in Hsave as [Hpresets _].
    cbn [presets set_presets] in Hpresets.
    cbn [presetManager selectedPresetIndex editingPreset ResetEditingPreset
         set_selectedPresetIndex set_presetManager].
    rewrite Hpresets, RemovePreset_delete. repeat split.
  - apply SaveToStorage_throws in Hsave as [-> _].
    cbn [presetManager selectedPresetIndex editingPreset set_presetManager
         presets set_presets].
    rewrite RemovePreset_delete. repeat split. exact Hsel.
Qed.

Lemma Delete_pressed_outcomes_witness :
  selectedPresetIndex example_plugin = Z.of_nat 1 /\
  presets (presetManager example_plugin) !! 1 = Some example_other /\
  (Z.of_nat (length (presets (presetManager example_plugin))) < 2 ^ 31)%Z /\
  FindPresetIndex (presets (presetManager example_plugin)) (name example_other)
    <= 1.
Proof.
  assert (H3 : (Z.of_nat (length (presets (presetManager example_plugin)))
                < 2 ^ 31)%Z) by reflexivity.
  split; [reflexivity|]. split; [reflexivity|]. split; [exact H3|].
  exact (proj1 (Delete_pressed_outcomes example_plugin 1 example_other
                  eq_refl eq_refl H3)).
Defined.

Lemma files_RefreshFromVanillaPresets (s : State) :
  storageDirectory (RefreshFromVanillaPresets s) = storageDirectory s /\
  storageWritable (RefreshFromVanillaPresets s) = storageWritable s.
Proof.
  unfold RefreshFromVanillaPresets.
  destruct (Text.empty _); [now split|].
  destruct (vanillaFile _); try now split.
  destruct (upsert_lines_files ParseVanillaLine content (set_presets [] s))
    as (-> & _ & -> & _). now split.
Qed.

Lemma upsert_lines_storageFilePath (parse : text -> option CustomPreset)
    (content : text) (s : State) :
  storageFilePath (upsert_lines parse content s) = storageFilePath s.
Proof.
  unfold upsert_lines.
  generalize (Text.getlines "010" content) as lines.
  intros lines; revert s; induction lines as [|line lines IH]; intros s;
    [reflexivity|].
  simpl. rewrite IH. now destruct (parse line).
Qed.

Lemma paths_RefreshFromVanillaPresets (s : State) :
  storageFile (RefreshFromVanillaPresets s) = storageFile s /\
  storageFilePath (RefreshFromVanillaPresets s) = storageFilePath s.
Proof.
  unfold RefreshFromVanillaPresets.
  destruct (Text.empty _); [now split|].
  destruct (vanillaFile _); try now split.
  rewrite upsert_lines_storageFilePath.
  destruct (upsert_lines_files ParseVanillaLine content (set_presets [] s))
    as (_ & -> & _). now split.
Qed.

(** X21. [ImportVanillaPresets] replaces the store by the vanilla import
    and saves. When the save returns, nothing is selected, the form is
    blank, and the last line logged gives the new number of records,
    with the remark on duplicates exactly when that number is smaller
    than the one before; on a writable disk the storage file then holds
    one line per imported record, on an unwritable one the file is left
    as it was and the failure is logged before the count. When the save
    throws, the store is replaced all the same while file, selection
    and form stay as they were. *)
Theorem ImportVanillaPresets_outcomes (pl : Plugin) :
  let m := presetManager pl in
  match ImportVanillaPresets pl with
  | PluginReturns pl' =>
      let n := length (presets (presetManager pl')) in
      let message :=
        str "ExpandedPresets: Imported " ++ F32.decimal (Z.of_nat n) ++
        str " presets from presets.data" ++
        (if n <? length (presets m)
         then str " (duplicates were overwritten)" else []) in
      presets (presetManager pl') = presets (RefreshFromVanillaPresets m) /\
      selectedPresetIndex pl' = (-1)%Z /\
      editingPreset pl' = vanilla_preset [] [] /\
      last (console (presetManager pl')) = Some message /\
      storageDirectory m <> DirMissing false /\
      if storageWritable m
      then storageFile (presetManager pl') =
             Some (concat (map StorageLine (presets (presetManager pl')))) /\
           console (presetManager pl') =
             console (RefreshFromVanillaPresets m) ++ [message]
      else storageFile (presetManager pl') = storageFile m /\
           console (presetManager pl') =
             console (RefreshFromVanillaPresets m) ++
             [str "ExpandedPresets: Failed to open storage file for writing: "
                ++ storageFilePath m; message]
  | PluginThrows pl' =>
      storageDirectory m = DirMissing false /\
      presets (presetManager pl') = presets (RefreshFromVanillaPresets m) /\
      selectedPresetIndex pl' = selectedPresetIndex pl /\
      editingPreset pl' = editingPreset pl /\
      storageFile (presetManager pl') = storageFile m
  end.
Proof.
  cbn zeta. unfold ImportVanillaPresets.
  destruct (files_RefreshFromVanillaPresets (presetManager pl)) as [Hd Hw].
  destruct (paths_RefreshFromVanillaPresets (presetManager pl)) as [Hf Hpath].
  destruct (SaveToStorage (RefreshFromVanillaPresets (presetManager pl)))
    as [m'|m'] eqn:Hsave.
  - apply SaveToStorage_file in Hsave as Hfile.
    apply SaveToStorage_returns in Hsave as [Hpresets _].
    destruct Hfile as [Hdir Hfile]. rewrite Hd in Hdir.
    rewrite Hw, Hf, Hpath in Hfile.
    cbn [presetManager selectedPresetIndex editingPreset ResetEditingPreset
         set_selectedPresetIndex set_presetManager presets console log
         storageFile].
    split; [exact Hpresets|]. split; [reflexivity|]. split; [reflexivity|].
    split; [apply last_snoc|]. split; [exact Hdir|].
    destruct (storageWritable (presetManager pl)).
    + destruct Hfile as [Hfile Hconsole]. rewrite Hpresets, Hconsole.
      now split.
    + destruct Hfile as [Hfile Hconsole]. rewrite Hconsole, <- app_assoc.
      now split.
  - apply SaveToStorage_throws in Hsave as [-> Hdir].
    rewrite Hd in Hdir.
    cbn [presetManager selectedPresetIndex editingPreset set_presetManager].
    repeat split; [exact Hdir|exact Hf].
Qed.

(** ** Records of the vanilla import *)

Lemma none_in_app chars (s t : text) :
  Strip.none_in chars (s ++ t) = Strip.none_in chars s && Strip.none_in chars t.
Proof. apply forallb_app. Qed.

Lemma none_in_strip chars chars' (s : text) :
  Strip.none_in chars s = true ->
  Strip.none_in chars (Strip.strip chars' s) = true.
Proof.
  destruct (strip_parts chars' s) as (before & after & Hs & _).
  intros H. rewrite Hs, !none_in_app in H.
  apply andb_prop in H as [_ H]. now apply andb_prop in H as [H _].
Qed.

Lemma ParseVanillaLine_fields (line : text) (p : CustomPreset) :
  ParseVanillaLine line = Some p ->
  name p <> [] /\ loadoutCode p <> [] /\
  Strip.none_in Text.blanks (loadoutCode p) = true /\
  customization p = default_customization.
Proof.
  unfold ParseVanillaLine.
  destruct (Text.empty _ || Text.front_is _ _); [discriminate|].
  destruct (Text.find_last_of _ _) as [pos|] eqn:Hpos; [|discriminate].
  cbn [name loadoutCode].
  destruct (Text.empty (TrimWhitespace (Text.substr _ 0 pos))) eqn:Hn;
    [discriminate|].
  destruct (Text.empty (TrimWhitespace (Text.substr_from _ (pos + 1)))) eqn:Hc;
    [discriminate|].
  intros [= <-]. cbn [name loadoutCode customization].
  apply Text_empty_false in Hn, Hc. repeat split; try assumption.
  apply find_last_of_some in Hpos as (c & _ & _ & Hnone).
  unfold Text.substr_from. rewrite Nat.add_1_r, TrimWhitespace_strip.
  now apply none_in_strip.
Qed.

(** X22. Every record [RefreshFromVanillaPresets] leaves has a name and
    a loadout code that are not empty, a loadout code without any tab
    or space, and the default customization. *)
Theorem vanilla_records (s : State) :
  Forall (fun p => name p <> [] /\ loadoutCode p <> [] /\
                   Strip.none_in Text.blanks (loadoutCode p) = true /\
                   customization p = default_customization)
         (presets (RefreshFromVanillaPresets s)).
Proof.
  unfold RefreshFromVanillaPresets.
  destruct (Text.empty _); [constructor|].
  destruct (vanillaFile _); try constructor.
  apply presets_upsert_lines_ind; [constructor|].
  intros ps line p Hps _ Hp. apply Forall_AddOrUpdatePreset; [assumption|].
  now apply ParseVanillaLine_fields with line.
Qed.

(** * The two imports, line by line *)

(** ** Upserting a sequence of records *)

Lemma FindPreset_AddOrUpdatePreset_other (ps : CustomPresetCollection)
    (p : CustomPreset) (n : text) :
  name p <> n -> FindPreset (AddOrUpdatePreset ps p) n = FindPreset ps n.
Proof.
  intros Hn. unfold AddOrUpdatePreset.
  destruct (Nat.leb_spec (length ps) (FindPresetIndex ps (name p))).
  - now apply FindPreset_app_other.
  - now apply FindPreset_insert_other.
Qed.

Lemma FindPreset_fold_other (rs : list CustomPreset)
    (ps : CustomPresetCollection) (n : text) :
  Forall (fun q => name q <> n) rs ->
  FindPreset (fold_left AddOrUpdatePreset rs ps) n = FindPreset ps n.
Proof.
  revert ps; induction rs as [|q rs IH]; intros ps H; [reflexivity|].
  apply Forall_cons in H as [Hq Hrs]. cbn [fold_left].
  rewrite IH by assumption. now apply FindPreset_AddOrUpdatePreset_other.
Qed.

(** The last record of a name is the one found afterwards. *)
Lemma FindPreset_fold_latest (rs1 rs2 : list CustomPreset) (p : CustomPreset)
    (ps : CustomPresetCollection) :
  Forall (fun q => name q <> name p) rs2 ->
  FindPreset (fold_left AddOrUpdatePreset (rs1 ++ p :: rs2) ps) (name p)
  = Some p.
Proof.
  intros H. rewrite fold_left_app. cbn [fold_left].
  rewrite FindPreset_fold_other by assumption.
  apply FindPreset_AddOrUpdatePreset.
Qed.

Lemma names_AddOrUpdatePreset_incl (ps : CustomPresetCollection)
    (p : CustomPreset) (n : text) :
  n = name p \/ In n (map name ps) ->
  In n (map name (AddOrUpdatePreset ps p)).
Proof.
  intros [->|H].
  - apply in_map.
    exact (proj1 (FindPreset_Some _ _ _ (FindPreset_AddOrUpdatePreset ps p))).
  - rewrite names_AddOrUpdatePreset.
    destruct (_ <? _); [assumption|]. apply in_or_app. now left.
Qed.

Lemma names_fold_incl (rs : list CustomPreset) (ps : CustomPresetCollection)
    (n : text) :
  In n (map name rs) \/ In n (map name ps) ->
  In n (map name (fold_left AddOrUpdatePreset rs ps)).
Proof.
  revert ps; induction rs as [|q rs IH]; intros ps H.
  - now destruct H as [[]|H].
  - cbn [fold_left]. apply IH. cbn [map] in H.
    destruct H as [[<-|H]|H]; [right|now left|right];
      apply names_AddOrUpdatePreset_incl; auto.
Qed.

Lemma omap_app_cons {A B} (f : A -> option B) (l1 l2 : list A) (x : A) (y : B) :
  f x = Some y -> omap f (l1 ++ x :: l2) = omap f l1 ++ y :: omap f l2.
Proof.
  intros H. rewrite omap_app. cbn [omap list_omap]. now rewrite H.
Qed.

(** ** Valid lines of the vanilla format *)

Lemma ParseVanillaLine_vanilla_line (line : text) (p : CustomPreset) :
  ParseVanillaLine line = Some p <-> vanilla_line line p.
Proof.
  unfold vanilla_line, ParseVanillaLine. cbn zeta.
  set (t := TrimWhitespace line). cbn [name loadoutCode].
  unfold Text.substr, Text.substr_from. rewrite !drop_0.
  split.
  - destruct (Text.empty t) eqn:Ht; [discriminate|].
    destruct (Text.front_is "#" t) eqn:Hfront; [discriminate|].
    cbn [orb].
    destruct (Text.find_last_of Text.blanks t) as [pos|] eqn:E; [|discriminate].
    destruct (Text.empty (TrimWhitespace (take pos t))) eqn:Hb; [discriminate|].
    destruct (Text.empty (TrimWhitespace (drop (pos + 1) t))) eqn:Ha;
      [discriminate|].
    cbn [orb]. intros [= <-]. split; [reflexivity|].
    exists (Strip.rstrip Text.blanks (take pos t)), (drop (S pos) t).
    rewrite TrimWhitespace_rstrip_blanks, <- Nat.add_1_r.
    apply Text_empty_false in Hb, Ha.
    repeat split; try assumption.
    rewrite Nat.add_1_r. now apply find_last_of_split.
  - intros (Hfront & before & after & Hsplit & Hb & Ha & ->).
    assert (Ht : Text.empty t = false).
    { destruct Hsplit as (run & Heq & Hrun & _). rewrite Heq.
      destruct before; [destruct run; [congruence|]|]; reflexivity. }
    rewrite Ht, Hfront. cbn [orb].
    apply last_run_split_find in Hsplit as (pos & -> & -> & ->).
    apply Text_empty_false in Hb, Ha. now rewrite Hb, Ha.
Qed.

(** C9. [RefreshFromVanillaPresets] starts from the empty collection
    whatever the store held, and upserts the valid lines of the file:
    the record of a valid line that no later valid line of the same
    name follows is in the store afterwards and is the one found under
    its name; the name of every valid line is in the store; every
    record left is the record of a valid line, so a prior record no
    line yields is gone. When the file is missing (or cannot be opened)
    one diagnostic is logged and the store is left empty. On the sample
    presets.data, read into a store that held a vanilla record and a
    custom one, the store ends with the two names of the file, "Team GT"
    with the code of its later line, and without the custom record. *)
Theorem RefreshFromVanillaPresets_replaces (s : State) :
  let s' := RefreshFromVanillaPresets s in
  (forall prior, presets (RefreshFromVanillaPresets (set_presets prior s))
                 = presets s') /\
  match vanillaFile s with
  | FileContent content =>
      if Text.empty (vanillaPresetsPath s)
      then presets s' = [] /\ exists message, console s' = console s ++ [message]
      else
        let lines := Text.getlines "010" content in
        (forall before line after p,
           lines = before ++ line :: after ->
           vanilla_line line p ->
           (forall later q, In later after -> vanilla_line later q ->
                            name q <> name p) ->
           In p (presets s') /\ FindPreset (presets s') (name p) = Some p) /\
        (forall line p, In line lines -> vanilla_line line p ->
                        In (name p) (map name (presets s'))) /\
        (forall q, In q (presets s') ->
                   exists line, In line lines /\ vanilla_line line q) /\
        (forall p, In p (presets s) ->
                   (forall line, In line lines -> ~ vanilla_line line p) ->
                   ~ In p (presets s')) /\
        presets s' =
          fold_left AddOrUpdatePreset (records ParseVanillaLine content) [] /\
        (forall p, In p (presets s') ->
                   In p (records ParseVanillaLine content)) /\
        (forall p, In p (presets s) ->
                   ~ In p (records ParseVanillaLine content) ->
                   ~ In p (presets s')) /\
        console s' = console s
  | FileMissing =>
      presets s' = [] /\
      console s' = console s ++
        [str "ExpandedPresets: Could not find vanilla presets.data file to import presets."]
  | FileUnreadable =>
      presets s' = [] /\ exists message, console s' = console s ++ [message]
  end /\
  presets (RefreshFromVanillaPresets example_vanilla_state) =
    [vanilla_preset (str "Team GT") (str "RLCS-EEEE-FFFF");
     vanilla_preset (str "Octane Classic") (str "AAAA-1111")].
Proof.
  cbn zeta. split; [intros prior; reflexivity|]. split; [|reflexivity].
  unfold RefreshFromVanillaPresets.
  cbn [vanillaPresetsPath vanillaFile set_presets].
  destruct (vanillaFile s) as [| |content];
    destruct (Text.empty (vanillaPresetsPath s)); cbn [presets console log];
    try (split; [reflexivity|]); try reflexivity; try (eexists; reflexivity).
  assert (Hin : forall p,
             In p (presets (upsert_lines ParseVanillaLine content
                              (set_presets [] s))) ->
             In p (records ParseVanillaLine content)).
  { apply (presets_upsert_lines_ind
             (fun ps => forall p, In p ps -> In p (records ParseVanillaLine content))).
    - intros p [].
    - intros ps line q Hps Hline Hq p [->|Hp]%In_AddOrUpdatePreset.
      + now apply In_records with line.
      + now apply Hps. }
  rewrite presets_upsert_lines. cbn [presets set_presets].
  rewrite presets_upsert_lines in Hin. cbn [presets set_presets] in Hin.
  assert (Hline : forall q, In q (records ParseVanillaLine content) ->
             exists line, In line (Text.getlines "010" content) /\
                          vanilla_line line q).
  { intros q Hq. unfold records in Hq.
    apply list_elem_of_In, list_elem_of_omap in Hq as (line & Hl & Hparse).
    exists line. split; [now apply list_elem_of_In|].
    now apply ParseVanillaLine_vanilla_line. }
  split; [|split; [|split; [|split; [|split; [|split; [|split]]]]]].
  - intros before line after p Hlines Hp Hlater.
    apply ParseVanillaLine_vanilla_line in Hp.
    assert (Hfind : FindPreset
                      (fold_left AddOrUpdatePreset
                         (records ParseVanillaLine content) []) (name p)
                    = Some p).
    { unfold records. rewrite Hlines, (omap_app_cons _ _ _ _ _ Hp).
      apply FindPreset_fold_latest. apply List.Forall_forall.
      intros q Hq.
      apply list_elem_of_In, list_elem_of_omap in Hq as (later & Hl & Hparse).
      apply (Hlater later); [now apply list_elem_of_In|].
      now apply ParseVanillaLine_vanilla_line. }
    split; [|exact Hfind]. exact (proj1 (FindPreset_Some _ _ _ Hfind)).
  - intros line p Hl Hp. apply ParseVanillaLine_vanilla_line in Hp.
    apply names_fold_incl. left. apply in_map. now apply In_records with line.
  - intros q Hq. now apply Hline, Hin.
  - intros p _ Hnot Hp. destruct (Hline p (Hin p Hp)) as (line & Hl & Hv).
    exact (Hnot line Hl Hv).
  - reflexivity.
  - exact Hin.
  - intros p _ Hnot Hp. now apply Hnot, Hin.
  - now rewrite console_upsert_lines.
Qed.

(** ** An import that does not overwrite *)

Lemma stored_name (ps : CustomPresetCollection) (n : text) :
  existsb (Text.eqb n) (map name ps) =
  match FindPreset ps n with Some _ => true | None => false end.
Proof.
  destruct (FindPreset ps n) as [q|] eqn:E.
  - apply FindPreset_Some in E as [Hq <-].
    apply existsb_exists. exists (name q).
    split; [now apply in_map|apply Text_eqb_refl].
  - apply FindPreset_None in E. rewrite List.Forall_forall in E.
    destruct (existsb _ _) eqn:Hex; [|reflexivity].
    apply existsb_exists in Hex as (m & Hm & Heq).
    apply Text_eqb_eq in Heq. subst m.
    apply in_map_iff in Hm as (q & Hname & Hq).
    now destruct (E q Hq).
Qed.

Lemma import_new_records (incoming : list CustomPreset) (s : State)
    (count : nat) :
  let result := fold_left (import_record false) incoming (s, count) in
  let added := new_records (map name (presets s)) incoming in
  presets (fst result) = presets s ++ added /\
  snd result = count + length added.
Proof.
  cbn zeta. revert s count; induction incoming as [|p incoming IH];
    intros s count.
  - simpl. rewrite app_nil_r. split; [reflexivity|lia].
  - cbn [fold_left import_record new_records]. rewrite stored_name.
    destruct (FindPreset (presets s) (name p)) as [q|] eqn:E.
    + apply IH.
    + destruct (IH (upsert p s) (S count)) as [H1 H2].
      cbn [upsert presets set_presets] in H1, H2.
      rewrite AddOrUpdatePreset_absent in H1, H2 by now apply FindPreset_None.
      rewrite map_app, <- app_assoc in H1. rewrite map_app in H2.
      cbn [map] in H1, H2.
      split; [exact H1|]. rewrite H2. cbn [length]. lia.
Qed.

Lemma new_records_fresh (names : list text) (incoming : list CustomPreset) :
  Forall (fun p => ~ In (name p) names) (new_records names incoming) /\
  List.NoDup (map name (new_records names incoming)) /\
  sublist (new_records names incoming) incoming.
Proof.
  revert names; induction incoming as [|p incoming IH]; intros names.
  - simpl. repeat split; constructor.
  - cbn [new_records]. destruct (existsb _ names) eqn:Hex.
    + destruct (IH names) as (H1 & H2 & H3).
      repeat split; try assumption. now apply sublist_cons.
    + destruct (IH (names ++ [name p])) as (H1 & H2 & H3).
      assert (Hp : ~ In (name p) names).
      { intros Hin. apply not_true_iff_false in Hex. apply Hex.
        apply existsb_exists. exists (name p).
        split; [assumption|apply Text_eqb_refl]. }
      repeat split.
      * constructor; [exact Hp|].
        eapply Forall_impl; [exact H1|]. cbn beta. intros q Hq Hin.
        apply Hq, in_or_app. now left.
      * cbn [map]. constructor; [|exact H2].
        intros Hin. apply in_map_iff in Hin as (q & Hname & Hq).
        rewrite List.Forall_forall in H1. apply (H1 q Hq).
        apply in_or_app. right. rewrite Hname. now left.
      * now apply sublist_skip.
Qed.

Lemma FindPreset_app_stored (ps added : CustomPresetCollection) (n : text)
    (q : CustomPreset) :
  FindPreset ps n = Some q -> FindPreset (ps ++ added) n = Some q.
Proof.
  rewrite !FindPreset_find. intros H.
  induction ps as [|x ps IH]; [discriminate|].
  cbn [app List.find] in *. destruct (Text.eqb (name x) n); auto.
Qed.

(** C2. [ImportFromFile] on a file that is missing (or cannot be
    opened) returns 0 and leaves the records alone. On a readable file,
    without [overwriteExisting] a line whose name is in the store when
    the line is reached is skipped and not counted: the stored records
    keep their places and fields, what is appended is the first record
    of each name the store did not hold, in file order, and the count is
    the number appended; every name of the file is in the store
    afterwards. With [overwriteExisting] every valid record of the file
    is upserted and counted, the last record of a name being the one
    found afterwards. On the spec's example the stored "Octane Classic"
    is untouched and not counted without the flag, and replaced and
    counted with it; a catalog that names one new preset twice adds its
    first record and returns 1. *)
Theorem ImportFromFile_policy (path : text) (overwriteExisting : bool)
    (s : State) :
  let result := ImportFromFile path overwriteExisting s in
  match files s path with
  | FileContent content =>
      let incoming := records ParseStorageLine content in
      if overwriteExisting
      then presets (fst result) =
             fold_left AddOrUpdatePreset incoming (presets s) /\
           snd result = length incoming /\
           (forall earlier p later,
              incoming = earlier ++ p :: later ->
              Forall (fun q => name q <> name p) later ->
              FindPreset (presets (fst result)) (name p) = Some p) /\
           (forall n, Forall (fun q => name q <> n) incoming ->
                      FindPreset (presets (fst result)) n
                      = FindPreset (presets s) n)
      else exists added,
             presets (fst result) = presets s ++ added /\
             snd result = length added /\
             Forall (fun p => In p incoming) added /\
             Forall (fun p => exists q, In q (presets (fst result)) /\
                                        name q = name p) incoming /\
             added = new_records (map name (presets s)) incoming /\
             Forall (fun p => FindPreset (presets s) (name p) = None) added /\
             List.NoDup (map name added) /\
             sublist added incoming /\
             (forall n q, FindPreset (presets s) n = Some q ->
                          FindPreset (presets (fst result)) n = Some q)
  | _ => snd result = 0 /\ presets (fst result) = presets s
  end /\
  (let kept := ImportFromFile example_catalog_path false example_store in
   snd kept = 1 /\
   FindPreset (presets (fst kept)) (str "Octane Classic") = Some example_first /\
   length (presets (fst kept)) = 3) /\
  (let replaced := ImportFromFile example_catalog_path true example_store in
   snd replaced = 2 /\
   option_map loadoutCode
     (FindPreset (presets (fst replaced)) (str "Octane Classic"))
     = Some (str "BBBB-2222") /\
   FindPresetIndex (presets (fst replaced)) (str "Octane Classic") = 0 /\
   length (presets (fst replaced)) = 3) /\
  (let twice := ImportFromFile example_catalog_path false example_repeats_store in
   snd twice = 1 /\
   presets (fst twice) =
     [vanilla_preset (str "Fennec Stealth") (str "CCCC-3333")]).
Proof.
  cbn zeta.
  split; [|split; [|split]; vm_compute; repeat split].
  destruct (files s path) as [| |content] eqn:E;
    try (unfold ImportFromFile; rewrite E; split; reflexivity).
  rewrite (ImportFromFile_records _ _ _ _ E).
  destruct overwriteExisting.
  - destruct (import_overwrite (records ParseStorageLine content) s 0)
      as [H1 H2].
    split; [exact H1|]. split; [exact H2|]. rewrite H1. split.
    + intros earlier p later -> Hlater. now apply FindPreset_fold_latest.
    + intros n Hn. now apply FindPreset_fold_other.
  - destruct (import_keep_existing (records ParseStorageLine content) s 0)
      as (added & H1 & H2 & H3 & H4).
    destruct (import_new_records (records ParseStorageLine content) s 0)
      as [N1 _]. cbn zeta in N1.
    assert (Hadded : added = new_records (map name (presets s))
                               (records ParseStorageLine content)).
    { rewrite H1 in N1. now apply app_inv_head in N1. }
    destruct (new_records_fresh (map name (presets s))
                (records ParseStorageLine content)) as (F1 & F2 & F3).
    rewrite <- Hadded in F1, F2, F3.
    exists added.
    split; [exact H1|]. split; [exact H2|]. split; [exact H3|].
    split; [exact H4|]. split; [exact Hadded|]. split; [|split; [|split]].
    + eapply Forall_impl; [exact F1|]. cbn beta. intros p Hp.
      destruct (FindPreset (presets s) (name p)) as [q|] eqn:Hq;
        [|reflexivity].
      apply FindPreset_Some in Hq as [Hq Hname].
      destruct Hp. rewrite <- Hname. now apply in_map.
    + exact F2.
    + exact F3.
    + intros n q Hq. rewrite H1. now apply FindPreset_app_stored.
Qed.
